(** * hgraph-api: the cross-source reconciliation pipeline of [api-server.js]

    A shallow embedding of the utility, transformation and comparison
    functions of [src/api-server.js], followed by the properties the
    specification states about them.

    Conventions of the embedding:
    - a JavaScript string is a [string] (one character per code unit);
    - a JavaScript number that holds an integer is the [Z] it denotes, and
      the rounding of IEEE-754 binary64 is written out where the source does
      arithmetic ([to_double], [fdiv_floor]);
    - a [Set] of strings is a [gset string], a counting object keyed by
      strings is a [gmap string nat];
    - a call that can throw returns an [option], [None] standing for the
      exception. *)

From Stdlib Require Import ZArith.
From Stdlib Require Import Ascii DecimalString.
From Stdlib Require OrderedTypeEx.
From stdpp Require Import base decidable list sorting strings gmap fin_maps.

Local Open Scope Z_scope.

(** ** Strings *)

Module Str.

(** [s.startsWith(p)] *)
Fixpoint startsWith (p s : string) : bool :=
  match p, s with
  | EmptyString, _ => true
  | String a p', String b s' => if Ascii.eqb a b then startsWith p' s' else false
  | String _ _, EmptyString => false
  end.

(** [s.slice(n)] for [0 <= n] *)
Fixpoint slice (n : nat) (s : string) : string :=
  match n, s with
  | O, _ => s
  | S n', String _ s' => slice n' s'
  | S _, EmptyString => EmptyString
  end.

(** [n] copies of the character [c] *)
Fixpoint repeat (c : Ascii.ascii) (n : nat) : string :=
  match n with
  | O => EmptyString
  | S n' => String c (repeat c n')
  end.

(** [s.padStart(n, c)] with a one-character filler *)
Definition padStart (n : nat) (c : Ascii.ascii) (s : string) : string :=
  repeat c (n - String.length s) +:+ s.

(** [s.includes(p)] *)
Fixpoint includes (p s : string) : bool :=
  startsWith p s ||
  match s with
  | EmptyString => false
  | String _ s' => includes p s'
  end.

(** The order of [Array.prototype.sort] without a comparator: code units
    compared from the left, a proper prefix first. *)
Definition le (a b : string) : Prop := String.leb a b = true.

#[global] Instance le_dec : RelDecision le.
Proof. intros a b. unfold le. apply _. Defined.

#[global] Instance le_total : Total le.
Proof. intros a b. apply String.leb_total. Qed.

End Str.

(** ** Hash cleaning *)

(** The escape prefix: a backslash followed by [x]. *)
Definition escape_prefix : string := "\x".

Definition cleanTransactionHash (hash : string) : string :=
  if Str.startsWith escape_prefix hash then Str.slice 2 hash else hash.

(** ** Discrepancy comparator *)

Record Discrepancies := {
  missing_in_dragonglass : list string;
  missing_in_hgraph : list string;
  dragonglass_count : nat;
  hgraph_count : nat
}.

(** [discrepancies] is [None] for JavaScript's [null]. *)
Record Comparison := {
  status : string;
  discrepancies : option Discrepancies
}.

Definition compareAndGetStatus (dragonGlassHashes hgraphHashes : list string)
  : Comparison :=
  let dgSet : gset string := list_to_set dragonGlassHashes in
  let hgSet : gset string := list_to_set hgraphHashes in
  let missingInDragonGlass := filter (λ hash, hash ∉ dgSet) hgraphHashes in
  let missingInHGraph := filter (λ hash, hash ∉ hgSet) dragonGlassHashes in
  if decide (length missingInDragonGlass = 0%nat ∧ length missingInHGraph = 0%nat)
  then {| status := "match"; discrepancies := None |}
  else {| status := "discrepancy_detected";
          discrepancies := Some {|
            missing_in_dragonglass := missingInDragonGlass;
            missing_in_hgraph := missingInHGraph;
            dragonglass_count := length dragonGlassHashes;
            hgraph_count := length hgraphHashes |} |}.

(** ** JavaScript numbers holding integers

    A number whose value is an integer is modelled by that integer.  Where
    the source converts text to a number or does arithmetic, the rounding of
    IEEE-754 binary64 (53-bit significand, round to nearest, ties to even)
    is applied explicitly.  Infinities and subnormals are not represented:
    no computation below reaches them from integer inputs, except text
    denoting more than about 1.8e308, which is then kept as a (huge) finite
    value. *)

Module Double.

(** Nearest integer to [n / d] for [0 < d]; a tie goes to the even one. *)
Definition round_half_even (n d : Z) : Z :=
  let q := n / d in
  let r := n mod d in
  if 2 * r <? d then q
  else if d <? 2 * r then q + 1
  else if Z.even q then q else q + 1.

(** For [0 < n] and [0 < d]: the exponent [e] with
    [2^52 <= n / (d * 2^e) < 2^53]. *)
Definition ulp_exp (n d : Z) : Z :=
  let e0 := Z.log2 n - Z.log2 d - 52 in
  if n * 2 ^ Z.max 0 (- e0) <? d * 2 ^ Z.max 0 e0 * 2 ^ 52 then e0 - 1 else e0.

(** The binary64 value nearest to [n / d], for [0 < n] and [0 < d], as a
    significand and an exponent: the value is [m * 2^e]. *)
Definition round_pos (n d : Z) : Z * Z :=
  let e := ulp_exp n d in
  (round_half_even (n * 2 ^ Z.max 0 (- e)) (d * 2 ^ Z.max 0 e), e).

(** [Math.floor] of the value [m * 2^e]. *)
Definition floor_scaled (m e : Z) : Z :=
  if 0 <=? e then m * 2 ^ e else m / 2 ^ (- e).

(** The number nearest to the integer [z]: what [Number(text)] yields for
    text denoting [z], and what an arithmetic result [z] is rounded to. *)
Definition to_double (z : Z) : Z :=
  if z =? 0 then 0
  else let '(m, e) := round_pos (Z.abs z) 1 in Z.sgn z * floor_scaled m e.

(** [Math.floor(x / d)] for a number [x] and [0 < d]: the quotient is
    rounded to a number first, then floored. *)
Definition fdiv_floor (x d : Z) : Z :=
  if x =? 0 then 0
  else let '(m, e) := round_pos (Z.abs x) d in floor_scaled (Z.sgn x * m) e.

(** [Math.floor(x)] of a number holding an integer *)
Definition floor (x : Z) : Z := x.

(** [x % d]: exact, with the sign of [x]. *)
Definition rem (x d : Z) : Z := Z.rem x d.

(** [a - b] *)
Definition sub (a b : Z) : Z := to_double (a - b).

Definition MAX_SAFE_INTEGER : Z := 2 ^ 53 - 1.

(** Decimal digits of an integer, with a minus sign when negative. *)
Definition dec (z : Z) : string := NilZero.string_of_int (Z.to_int z).

(** The decimal with the fewest significant digits that still reads back
    as [v], for a number [0 < v]: with [k] digits kept ([fuel] bounds how
    many more are tried), the two multiples of [10^p] around [v] are the
    candidates, and the nearer one that rounds to [v] is taken. *)
Fixpoint shortest_from (fuel : nat) (k : Z) (ndigits : Z) (v : Z) : Z :=
  match fuel with
  | O => v
  | S fuel' =>
      let p := 10 ^ (ndigits - k) in
      let lo := v / p * p in
      let hi := lo + p in
      let ok_lo := (0 <? lo) && (to_double lo =? v) in
      let ok_hi := to_double hi =? v in
      if ok_lo && ok_hi then
        (if v - lo <? hi - v then lo
         else if hi - v <? v - lo then hi
         else if Z.even (v / p) then lo else hi)
      else if ok_lo then lo
      else if ok_hi then hi
      else shortest_from fuel' (k + 1) ndigits v
  end.

Definition shortest (v : Z) : Z :=
  let n := String.length (dec v) in
  shortest_from n 1 (Z.of_nat n) v.

(** The text without its trailing zeros. *)
Fixpoint strip_zeros (s : string) : string :=
  match s with
  | EmptyString => EmptyString
  | String c s' =>
      match strip_zeros s' with
      | EmptyString => if Ascii.eqb c "0"%char then EmptyString else String c EmptyString
      | rest => String c rest
      end
  end.

(** [v.toString()]: plain digits up to 21 of them, exponential notation
    beyond. *)
Definition toString (v : Z) : string :=
  if v =? 0 then "0"
  else
    let ds := dec (shortest (Z.abs v)) in
    let n := String.length ds in
    (if v <? 0 then "-" else "") +:+
    (if (n <=? 21)%nat then ds
     else
       let exponent := "e+" +:+ dec (Z.of_nat n - 1) in
       match strip_zeros ds with
       | EmptyString => ds
       | String d EmptyString => String d exponent
       | String d rest => String d ("." +:+ rest +:+ exponent)
       end).

(** [Number(text)] on integer literals: an optional sign and decimal
    digits, rounded to the nearest number.  [None] is [NaN], the result for
    text that is not numeric.  Numeric text of other shapes (a fraction, an
    exponent, hexadecimal, surrounding blanks, the empty text) is outside
    this embedding and is not told apart from [NaN]. *)
Definition ofString (s : string) : option Z :=
  match s with
  | EmptyString => None
  | String "+"%char EmptyString => None
  | String "+"%char s' =>
      match NilZero.uint_of_string s' with
      | Some u => Some (to_double (Z.of_uint u))
      | None => None
      end
  | _ =>
      match NilZero.int_of_string s with
      | Some i => Some (to_double (Z.of_int i))
      | None => None
      end
  end.

End Double.

(** ** Dates *)

Module Date.

Definition msPerDay : Z := 86400000.

(** A time value is kept by [new Date(ms)] only within 8.64e15 ms of the
    epoch; beyond, the date is invalid. *)
Definition maxTime : Z := 8640000000000000.

Definition valid (ms : Z) : bool := Z.abs ms <=? maxTime.

(** Year, month and day of the proleptic Gregorian calendar for a day
    number counted from 1970-01-01 (400-year eras starting on 1 March). *)
Definition civil_from_days (days : Z) : Z * Z * Z :=
  let z := days + 719468 in
  let era := z / 146097 in
  let doe := z mod 146097 in
  let yoe := (doe - doe / 1460 + doe / 36524 - doe / 146096) / 365 in
  let doy := doe - (365 * yoe + yoe / 4 - yoe / 100) in
  let mp := (5 * doy + 2) / 153 in
  let d := doy - (153 * mp + 2) / 5 + 1 in
  let m := if mp <? 10 then mp + 3 else mp - 9 in
  let y := yoe + era * 400 in
  (if m <=? 2 then y + 1 else y, m, d).

Definition pad (n : nat) (z : Z) : string :=
  Str.padStart n "0"%char (Double.dec z).

(** Four digits for the years 0 to 9999, a sign and six digits otherwise. *)
Definition year_string (y : Z) : string :=
  if (0 <=? y) && (y <=? 9999) then pad 4 y
  else if y <? 0 then "-" +:+ pad 6 (- y)
  else "+" +:+ pad 6 y.

(** [new Date(ms).toISOString()]; [None] is the [RangeError] thrown for an
    invalid date. *)
Definition toISOString (ms : Z) : option string :=
  if valid ms then
    let t := ms mod msPerDay in
    let '(y, m, d) := civil_from_days (ms / msPerDay) in
    Some (year_string y +:+ "-" +:+ pad 2 m +:+ "-" +:+ pad 2 d +:+ "T" +:+
          pad 2 (t / 3600000) +:+ ":" +:+ pad 2 (t / 60000 mod 60) +:+ ":" +:+
          pad 2 (t / 1000 mod 60) +:+ "." +:+ pad 3 (t mod 1000) +:+ "Z")
  else None.

End Date.

(** ** Timestamp conversion *)

(** A field that holds a number or a string, as the two timestamp fields do
    once [fixIntegerPrecision] has run. *)
Inductive jsval :=
| VNum (v : Z)
| VStr (s : string).

(** [typeof x === "string" ? x : x.toString()] *)
Definition toText (x : jsval) : string :=
  match x with
  | VNum v => Double.toString v
  | VStr s => s
  end.

(** [Number(text of x)]; [None] is [NaN].  For a number [v] the text
    [v.toString()] reads back as [v] itself. *)
Definition toNumber (x : jsval) : option Z :=
  match x with
  | VNum v => Some v
  | VStr s => Double.ofString s
  end.

Definition is_digit (c : ascii) : bool :=
  (("0"%char <=? c) && (c <=? "9"%char))%char.

(** [iso.replace(/\.(\d{3})Z$/, repl)]: a dot, three digits and [Z] at the
    very end are replaced by [repl]; without such an ending nothing changes. *)
Fixpoint replace_millis (iso repl : string) : string :=
  match iso with
  | EmptyString => EmptyString
  | String c rest =>
      match c, rest with
      | "."%char, String d1 (String d2 (String d3 (String "Z"%char EmptyString))) =>
          if is_digit d1 && is_digit d2 && is_digit d3 then repl
          else String c (replace_millis rest repl)
      | _, _ => String c (replace_millis rest repl)
      end
  end.

(** [None] is a thrown [RangeError] (the text is not a number, or the time
    is outside the range of [Date]). *)
Definition nanosToISOString (nanoseconds : jsval) : option string :=
  match toNumber nanoseconds with
  | None => None
  | Some n =>
      let milliseconds := Double.fdiv_floor n 1000000 in
      let remainingNanos := Double.rem n 1000000 in
      match Date.toISOString milliseconds with
      | None => None
      | Some isoBase =>
          Some (replace_millis isoBase
                  ("." +:+ Str.padStart 6 "0"%char (Double.toString remainingNanos) +:+ "Z"))
      end
  end.

(** ** Records of the two providers *)

(** The indexer's native transaction (Source B). *)
Module HGraph.

Record transfer := {
  entity_id : Z;
  amount : Z
}.

(** [decoded_memo] and [crypto_transfer] may be absent ([None]). *)
Record transaction := {
  consensus_timestamp : jsval;
  payer_account_id : Z;
  result : Z;
  charged_tx_fee : Z;
  decoded_memo : option string;
  transaction_hash : string;
  node_account_id : Z;
  valid_start_ns : jsval;
  crypto_transfer : option (list transfer)
}.

End HGraph.

(** The reference format (Source A native, Source B's target). *)
Module DG.

Module Transfer.
Record t := {
  accountID : string;
  amount : Z
}.
End Transfer.

Record transaction := {
  transactionID : string;
  readableTransactionID : string;
  transactionHash : string;
  payerID : string;
  startTime : string;
  nodeID : string;
  consensusTime : string;
  transactionFee : Z;
  nodeFees : Z;
  networkFees : Z;
  transfers : list Transfer.t;
  status : string;
  amount : Z;
  memo : string;
  transactionType : string;
  knownLabel : string;
  typeLabel : string;
  serviceType : string;
  source : string
}.

(** [payerIDs] is the source's [facets.payerID]. *)
Record Facets := {
  transactionTypes : gmap string nat;
  payerIDs : gmap string nat;
  serviceTypes : gmap string nat
}.

(** [mapping] is always [null]. *)
Record Envelope := {
  size : nat;
  totalCount : nat;
  data : list transaction;
  facets : Facets;
  mapping : option unit
}.

End DG.

(** ** Canonicalizer *)

(** The template literal [`0.0.${id}`]. *)
Definition account (id : Z) : string := "0.0." +:+ Double.toString id.

(** The test of [transfers.find] for the node's positive transfer. *)
Definition is_node_fee (node : Z) (t : DG.Transfer.t) : bool :=
  bool_decide (DG.Transfer.accountID t = account node) && (0 <? DG.Transfer.amount t).

(** [transfers.find(...)?.amount || 0] *)
Definition node_fee_of (node : Z) (transfers : list DG.Transfer.t) : Z :=
  match List.find (is_node_fee node) transfers with
  | Some t => if DG.Transfer.amount t =? 0 then 0 else DG.Transfer.amount t
  | None => 0
  end.

(** The callback of [transactions.map] in [transformHGraphToDragonGlass];
    [None] when one of the two timestamp conversions throws. *)
Definition transformTransaction (tx : HGraph.transaction) : option DG.transaction :=
  consensusTime ← nanosToISOString (HGraph.consensus_timestamp tx);
  startTime ← nanosToISOString (HGraph.valid_start_ns tx);
  (* not [NaN] here: [startTime] was produced from the same text *)
  validStart ← toNumber (HGraph.valid_start_ns tx);
  let transactionHash := cleanTransactionHash (HGraph.transaction_hash tx) in
  let validStartSecs := Double.fdiv_floor validStart 1000000000 in
  let validStartNanos := Double.rem validStart 1000000000 in
  let readableTransactionID :=
    account (HGraph.payer_account_id tx) +:+ "@" +:+
    Double.toString validStartSecs +:+ "." +:+ Double.toString validStartNanos in
  let transactionID :=
    Str.padStart 8 "0"%char (Double.toString (HGraph.payer_account_id tx)) +:+
    toText (HGraph.valid_start_ns tx) in
  let transfers :=
    (λ transfer, {| DG.Transfer.accountID := account (HGraph.entity_id transfer);
                    DG.Transfer.amount := HGraph.amount transfer |})
      <$> default [] (HGraph.crypto_transfer tx) in
  let transactionFee := HGraph.charged_tx_fee tx in
  let nodeFees := node_fee_of (HGraph.node_account_id tx) transfers in
  let networkFees := Double.sub transactionFee nodeFees in
  let amount := transactionFee in
  Some {|
    DG.transactionID := transactionID;
    DG.readableTransactionID := readableTransactionID;
    DG.transactionHash := transactionHash;
    DG.payerID := account (HGraph.payer_account_id tx);
    DG.startTime := startTime;
    DG.nodeID := account (HGraph.node_account_id tx);
    DG.consensusTime := consensusTime;
    DG.transactionFee := transactionFee;
    DG.nodeFees := nodeFees;
    DG.networkFees := networkFees;
    DG.transfers := transfers;
    DG.status := if HGraph.result tx =? 22 then "SUCCESS" else "FAILED";
    DG.amount := amount;
    DG.memo := default "" (HGraph.decoded_memo tx);
    DG.transactionType := "CRYPTO_TRANSFER";
    DG.knownLabel := "CryptoTransfer";
    DG.typeLabel := "Crypto Transfer";
    DG.serviceType := "CRYPTO";
    DG.source := "hgraphio"
  |}.

(** [facets.payerID[tx.payerID] = (facets.payerID[tx.payerID] || 0) + 1] *)
Definition count_payer (payers : gmap string nat) (tx : DG.transaction)
  : gmap string nat :=
  <[DG.payerID tx := (default 0 (payers !! DG.payerID tx) + 1)%nat]> payers.

(** The [transaction] property of the indexer's response data, as
    [transformHGraphToDragonGlass] tells it apart. *)
Inductive TransactionField :=
| Absent
| NotAList
| TxList (transactions : list HGraph.transaction).

Definition zero_envelope : DG.Envelope := {|
  DG.size := 0;
  DG.totalCount := 0;
  DG.data := [];
  DG.facets := {| DG.transactionTypes := ∅; DG.payerIDs := ∅; DG.serviceTypes := ∅ |};
  DG.mapping := None
|}.

(** [None] when the conversion of some record throws. *)
Definition transformHGraphToDragonGlass (transaction : TransactionField)
  : option DG.Envelope :=
  match transaction with
  | Absent | NotAList => Some zero_envelope
  | TxList transactions =>
      transformedData ← mapM transformTransaction transactions;
      let facets := {|
        DG.transactionTypes := {[ "CRYPTO_TRANSFER" := length transformedData ]};
        DG.payerIDs := foldl count_payer ∅ transformedData;
        DG.serviceTypes := {[ "CRYPTO" := length transformedData ]}
      |} in
      Some {|
        DG.size := length transformedData;
        DG.totalCount := length transformedData;
        DG.data := transformedData;
        DG.facets := facets;
        DG.mapping := None
      |}
  end.

(** ** Hash extractor *)

(** The response data handed to [createCanonicalHashArray]: [data] for the
    explorer's envelope, [transaction] for the indexer's; [None] when the
    property is missing. *)
Record ResponseData := {
  data : option (list DG.transaction);
  transaction : option (list HGraph.transaction)
}.

(** [Array.prototype.sort()] on strings. *)
Definition sort (l : list string) : list string := merge_sort Str.le l.

Definition createCanonicalHashArray (d : ResponseData) (source : string)
  : list string :=
  if decide (source = "dragonglass") then
    match data d with
    | Some txs => sort (DG.transactionHash <$> txs)
    | None => []
    end
  else if decide (source = "hgraphio") then
    match transaction d with
    | Some txs => sort ((λ tx, cleanTransactionHash (HGraph.transaction_hash tx)) <$> txs)
    | None => []
    end
  else [].

(** ** Precision-fix transform *)

(** A JSON-like value.  An object is the list of its own properties in
    enumeration order; a number is one that holds an integer (the indexer's
    numeric fields are integers), given by that integer. *)
#[warnings="-register-all"]
Inductive json :=
| JNull
| JUndefined
| JBool (b : bool)
| JNum (v : Z)
| JStr (s : string)
| JArr (items : list json)
| JObj (entries : list (string * json)).

Definition is_timestamp_key (key : string) : bool :=
  String.eqb key "consensus_timestamp" || String.eqb key "valid_start_ns".

(** The branch taken for a timestamp field holding the number [value]. *)
Definition fix_number (value : Z) : json :=
  if Str.includes "e+" (Double.toString value)
  then JStr (Double.toString (Double.floor value))
  else if Z.abs value >? Double.MAX_SAFE_INTEGER then JStr (Double.toString value)
  else JNum value.

(** [fixed[key] = v] creates the property [key], except for the key
    [__proto__], where the assignment sets the prototype of [fixed] and
    leaves no own property. *)
Definition assigns_own (key : string) : bool := negb (String.eqb key "__proto__").

Fixpoint fixIntegerPrecision (obj : json) : json :=
  match obj with
  | JNull | JUndefined => obj
  | JArr items => JArr (fixIntegerPrecision <$> items)
  | JObj entries =>
      JObj ((fix loop (entries : list (string * json)) : list (string * json) :=
               match entries with
               | [] => []
               | (key, value) :: rest =>
                   let fixedValue :=
                     match is_timestamp_key key, value with
                     | true, JNum v => fix_number v
                     | _, _ => fixIntegerPrecision value
                     end in
                   if assigns_own key then (key, fixedValue) :: loop rest
                   else loop rest
               end) entries)
  | _ => obj
  end.

(** The loop over [Object.entries(obj)], as a function of its own. *)
Fixpoint fix_entries (entries : list (string * json)) : list (string * json) :=
  match entries with
  | [] => []
  | (key, value) :: rest =>
      let fixedValue :=
        match is_timestamp_key key, value with
        | true, JNum v => fix_number v
        | _, _ => fixIntegerPrecision value
        end in
      if assigns_own key then (key, fixedValue) :: fix_entries rest
      else fix_entries rest
  end.

(** Induction over a JSON tree: the property is available for every item of
    an array and for every property value of an object. *)
Section json_induction.

Variable P : json → Prop.
Hypothesis Hnull : P JNull.
Hypothesis Hundefined : P JUndefined.
Hypothesis Hbool : ∀ b, P (JBool b).
Hypothesis Hnum : ∀ v, P (JNum v).
Hypothesis Hstr : ∀ s, P (JStr s).
Hypothesis Harr : ∀ items, Forall P items → P (JArr items).
Hypothesis Hobj : ∀ entries, Forall (λ kv, P kv.2) entries → P (JObj entries).

Fixpoint json_tree_ind (j : json) : P j :=
  match j with
  | JNull => Hnull
  | JUndefined => Hundefined
  | JBool b => Hbool b
  | JNum v => Hnum v
  | JStr s => Hstr s
  | JArr items =>
      Harr items
        ((fix go (l : list json) : Forall P l :=
            match l with
            | [] => Forall_nil_2 P
            | x :: l' => Forall_cons_2 P x l' (json_tree_ind x) (go l')
            end) items)
  | JObj entries =>
      Hobj entries
        ((fix go (l : list (string * json)) : Forall (λ kv, P kv.2) l :=
            match l with
            | [] => Forall_nil_2 _
            | kv :: l' => Forall_cons_2 (λ kv, P kv.2) kv l' (json_tree_ind kv.2) (go l')
            end) entries)
  end.

End json_induction.

(** ** Notions used to state the properties *)

(** The timestamp denotes a number whose millisecond is a valid [Date]:
    the case in which [nanosToISOString] does not throw. *)
Definition convertible (x : jsval) : bool :=
  match toNumber x with
  | Some n => Date.valid (Double.fdiv_floor n 1000000)
  | None => false
  end.

Definition tx_convertible (tx : HGraph.transaction) : bool :=
  convertible (HGraph.consensus_timestamp tx) && convertible (HGraph.valid_start_ns tx).

(** The text after the first dot. *)
Fixpoint after_dot (s : string) : option string :=
  match s with
  | EmptyString => None
  | String c rest => if Ascii.eqb c "."%char then Some rest else after_dot rest
  end.

(** The digits read so far, their count, then the rest of a fractional
    seconds field up to its closing [Z]. *)
Fixpoint read_fraction (s : string) (acc : Z) (ndigits : Z) : option Z :=
  match s with
  | String "Z"%char EmptyString =>
      if (1 <=? ndigits) && (ndigits <=? 9) then Some (acc * 10 ^ (9 - ndigits)) else None
  | String c rest =>
      if is_digit c
      then read_fraction rest (acc * 10 + (Z.of_N (N_of_ascii c) - 48)) (ndigits + 1)
      else None
  | EmptyString => None
  end.

(** The fractional seconds of an ISO-8601 timestamp, in nanoseconds. *)
Definition fractional_nanos (iso : string) : option Z :=
  match after_dot iso with
  | Some fraction => read_fraction fraction 0 0
  | None => None
  end.

(** The sum of the counts of a facet. *)
Definition total_count (counts : gmap string nat) : nat :=
  map_fold (λ _ c acc, (c + acc)%nat) 0%nat counts.

(** ** Sample inputs *)

(** A transfer of 100000 tinybars in fees, 4000 of them to node 0.0.3.
    The consensus timestamp is the specification's edge value; the valid
    start is 1.5 seconds after the epoch. *)
Definition sample_tx : HGraph.transaction := {|
  HGraph.consensus_timestamp := VStr "1700000000123456789";
  HGraph.payer_account_id := 26027;
  HGraph.result := 22;
  HGraph.charged_tx_fee := 100000;
  HGraph.decoded_memo := Some "kpay.live";
  HGraph.transaction_hash := "\xa1b2c3";
  HGraph.node_account_id := 3;
  HGraph.valid_start_ns := VStr "1500000000";
  HGraph.crypto_transfer :=
    Some [ {| HGraph.entity_id := 26027; HGraph.amount := -39000 |};
           {| HGraph.entity_id := 3; HGraph.amount := 4000 |};
           {| HGraph.entity_id := 657983; HGraph.amount := 35000 |} ]
|}.

(** The same transaction with a consensus timestamp of 1e22 nanoseconds,
    past the last millisecond a [Date] can hold. *)
Definition out_of_range_tx : HGraph.transaction := {|
  HGraph.consensus_timestamp := VStr "10000000000000000000000";
  HGraph.payer_account_id := 26027;
  HGraph.result := 22;
  HGraph.charged_tx_fee := 100000;
  HGraph.decoded_memo := Some "kpay.live";
  HGraph.transaction_hash := "\xa1b2c3";
  HGraph.node_account_id := 3;
  HGraph.valid_start_ns := VStr "1500000000";
  HGraph.crypto_transfer := None
|}.

(** Decides [Forall] over a literal list by evaluating each element. *)
Ltac forall_by_evaluation :=
  repeat (apply Forall_cons_2; [vm_compute; reflexivity|]); apply Forall_nil_2.

(** The order of the hash lists is a total order: with [Str.le_total], it
    is transitive and antisymmetric. *)
#[global] Instance Str_le_trans : Transitive Str.le.
Proof.
  assert (∀ a b, Str.le a b ↔ a = b ∨ OrderedTypeEx.String_as_OT.lt a b) as Hcases.
  { intros a b. unfold Str.le, String.leb.
    rewrite <- OrderedTypeEx.String_as_OT.cmp_lt, <- OrderedTypeEx.String_as_OT.cmp_eq.
    unfold OrderedTypeEx.String_as_OT.cmp.
    destruct (String.compare a b).
    - split; auto.
    - split; auto.
    - split; [discriminate | intros [?|?]; discriminate]. }
  intros a b c. rewrite !Hcases. intros [->|Hab] [->|Hbc]; auto.
  right. by eapply OrderedTypeEx.String_as_OT.lt_trans.
Qed.

#[global] Instance Str_le_antisym : AntiSymm (=) Str.le.
Proof. intros a b. apply String.leb_antisym. Qed.

(** ** Notions used to state further properties *)





(** A number that [fixIntegerPrecision] keeps as a number in a timestamp
    field: its text is not exponential and its magnitude is safe. *)
Definition kept_number (v : Z) : bool :=
  negb (Str.includes "e+" (Double.toString v)) &&
  negb (Z.abs v >? Double.MAX_SAFE_INTEGER).

(** Nothing is left to fix: no object at any depth has a property named
    [__proto__], and every number in a timestamp field is a kept one. *)
Fixpoint settled (j : json) : bool :=
  match j with
  | JArr items => forallb settled items
  | JObj entries =>
      forallb (λ '(key, value),
                 assigns_own key &&
                 match is_timestamp_key key, value with
                 | true, JNum v => kept_number v
                 | _, _ => settled value
                 end) entries
  | _ => true
  end.

(** ** Provider results and the route handlers

    The two provider clients are asynchronous: the handlers below take the
    results the clients resolved to.  Clock readings ([timestamp],
    [last_checked]) and the links built from the request are left out of the
    replies. *)

Module Provider.

(** What [callDragonGlassAPI] and [callHGraphAPI] resolve to. *)
Record Result (A : Type) := {
  success : bool;
  error : option string;
  data : A;
  source : string
}.
Arguments success {A} _.
Arguments error {A} _.
Arguments data {A} _.
Arguments source {A} _.

End Provider.

(** The explorer's response body as the handlers read it; a property that
    is missing is [None]. *)
Module Explorer.

Record Data := {
  size : option Z;
  totalCount : option Z;
  data : option (list DG.transaction);
  facets : option json;
  mapping : option json
}.

End Explorer.

(** [ToBoolean] on a JSON-like value. *)
Definition truthy (j : json) : bool :=
  match j with
  | JNull | JUndefined => false
  | JBool b => b
  | JNum v => negb (v =? 0)
  | JStr s => negb (String.eqb s "")
  | JArr _ | JObj _ => true
  end.

(** [x || fallback] for a property [x] that may be missing. *)
Definition or_else (x : option json) (fallback : json) : json :=
  match x with
  | Some v => if truthy v then v else fallback
  | None => fallback
  end.

(** The [catch] branch of [callDragonGlassAPI]. *)
Definition dragonGlassFailure (message : string) : Provider.Result Explorer.Data := {|
  Provider.success := false;
  Provider.error := Some message;
  Provider.source := "dragonglass";
  Provider.data := {|
    Explorer.size := Some 0;
    Explorer.totalCount := Some 0;
    Explorer.data := Some [];
    Explorer.facets := Some (JObj []);
    Explorer.mapping := Some JNull |}
|}.

(** The [catch] branch of [callHGraphAPI]; the data is its [transaction]
    property. *)
Definition hgraphFailure (message : string)
  : Provider.Result (option (list HGraph.transaction)) := {|
  Provider.success := false;
  Provider.error := Some message;
  Provider.source := "hgraphio";
  Provider.data := Some []
|}.

(** The reply of [GET /api/transactions/compare] with status 200. *)
Module Report.

Record t := {
  size : Z;
  totalCount : Z;
  data : list DG.transaction;
  facets : json;
  mapping : json;
  status : string;
  sources_called : list string;
  dragonglass_success : bool;
  hgraphio_success : bool;
  discrepancies : option Discrepancies;
  canonical_dragonglass : list string;
  canonical_hgraphio : list string;
  additional_hgraph_data : option DG.Envelope
}.

End Report.

Inductive Reply (A : Type) :=
| BadRequest (error : string)
| ServerError
| Ok (body : A).
Arguments BadRequest {A} _.
Arguments ServerError {A}.
Arguments Ok {A} _.

(** [!x] for a query parameter: missing or empty. *)
Definition absent (x : option string) : bool :=
  match x with
  | Some s => String.eqb s ""
  | None => true
  end.

(** The explorer's and the indexer's data as [createCanonicalHashArray]
    reads them. *)
Definition explorer_response (d : Explorer.Data) : ResponseData :=
  {| data := Explorer.data d; transaction := None |}.

Definition hgraph_response (t : option (list HGraph.transaction)) : ResponseData :=
  {| data := None; transaction := t |}.

(** The indexer's [transaction] property as [transformHGraphToDragonGlass]
    reads it. *)
Definition hgraph_field (t : option (list HGraph.transaction)) : TransactionField :=
  match t with
  | Some txs => TxList txs
  | None => Absent
  end.

(** The handler of [GET /api/transactions/compare]: [ServerError] is the
    reply of its [catch] branch. *)
Definition compareHandler (payerID query accountFrom : option string)
    (dragonGlassResult : Provider.Result Explorer.Data)
    (hgraphResult : Provider.Result (option (list HGraph.transaction)))
  : Reply Report.t :=
  if absent payerID || absent query || absent accountFrom then
    BadRequest "Missing required parameters: payerID, query, and accountFrom"
  else
    match transformHGraphToDragonGlass (hgraph_field (Provider.data hgraphResult)) with
    | None => ServerError
    | Some transformedHGraphData =>
        let dragonGlassHashes :=
          createCanonicalHashArray
            (explorer_response (Provider.data dragonGlassResult)) "dragonglass" in
        let hgraphHashes :=
          createCanonicalHashArray
            (hgraph_response (Provider.data hgraphResult)) "hgraphio" in
        let comparisonResult := compareAndGetStatus dragonGlassHashes hgraphHashes in
        Ok {|
          Report.size := default 0 (Explorer.size (Provider.data dragonGlassResult));
          Report.totalCount := default 0 (Explorer.totalCount (Provider.data dragonGlassResult));
          Report.data := default [] (Explorer.data (Provider.data dragonGlassResult));
          Report.facets := or_else (Explorer.facets (Provider.data dragonGlassResult)) (JObj []);
          Report.mapping := or_else (Explorer.mapping (Provider.data dragonGlassResult)) JNull;
          Report.status := status comparisonResult;
          Report.sources_called := ["dragonglass"; "hgraphio"];
          Report.dragonglass_success := Provider.success dragonGlassResult;
          Report.hgraphio_success := Provider.success hgraphResult;
          Report.discrepancies := discrepancies comparisonResult;
          Report.canonical_dragonglass := dragonGlassHashes;
          Report.canonical_hgraphio := hgraphHashes;
          Report.additional_hgraph_data :=
            if String.eqb (status comparisonResult) "discrepancy_detected" &&
               bool_decide (is_Some (discrepancies comparisonResult))
            then Some transformedHGraphData else None
        |}
    end.

(** The handler of [GET /api/hgraph/transactions/dg-format]: a failed
    indexer call is answered with status 500, like an exception. *)
Definition dgFormatHandler (payerID query accountFrom : option string)
    (hgraphResult : Provider.Result (option (list HGraph.transaction)))
  : Reply DG.Envelope :=
  if absent payerID || absent query || absent accountFrom then
    BadRequest "Missing required parameters: payerID, query, and accountFrom"
  else if negb (Provider.success hgraphResult) then ServerError
  else
    match transformHGraphToDragonGlass (hgraph_field (Provider.data hgraphResult)) with
    | None => ServerError
    | Some transformedData => Ok transformedData
    end.

(** The reply of [GET /api/dashboard/status]. *)
Module Dashboard.

Record t := {
  dragonglass_status : string;
  dragonglass_count : nat;
  hgraphio_status : string;
  hgraphio_count : nat;
  discrepancies : option Discrepancies;
  overall_status : string;
  bug_detected : bool
}.

End Dashboard.

(** The handler of [GET /api/dashboard/status], on the results of the two
    calls it makes for its fixed filter. *)
Definition dashboardStatusHandler
    (dragonGlassResult : Provider.Result Explorer.Data)
    (hgraphResult : Provider.Result (option (list HGraph.transaction)))
  : Dashboard.t :=
  let dragonGlassHashes :=
    createCanonicalHashArray
      (explorer_response (Provider.data dragonGlassResult)) "dragonglass" in
  let hgraphHashes :=
    createCanonicalHashArray
      (hgraph_response (Provider.data hgraphResult)) "hgraphio" in
  let comparisonResult := compareAndGetStatus dragonGlassHashes hgraphHashes in
  {|
    Dashboard.dragonglass_status :=
      if Provider.success dragonGlassResult then "online" else "offline";
    Dashboard.dragonglass_count :=
      length (default [] (Explorer.data (Provider.data dragonGlassResult)));
    Dashboard.hgraphio_status :=
      if Provider.success hgraphResult then "online" else "offline";
    Dashboard.hgraphio_count := length (default [] (Provider.data hgraphResult));
    Dashboard.discrepancies := discrepancies comparisonResult;
    Dashboard.overall_status := status comparisonResult;
    Dashboard.bug_detected :=
      String.eqb (status comparisonResult) "discrepancy_detected" &&
      match discrepancies comparisonResult with
      | Some d => (0 <? length (missing_in_dragonglass d))%nat
      | None => false
      end
  |}.

(** ** The superseded server

    The earlier version of the server ([src/unnamed/part_001]) has its own
    canonicalizer, hash extractor and comparator. *)

(** [a + b] on numbers *)
Definition js_add (a b : Z) : Z := Double.to_double (a + b).

Module Legacy.

Definition createCanonicalHashArray (d : ResponseData) (source : string)
  : list string :=
  if decide (source = "dragonglass") then
    match data d with
    | Some txs => sort (DG.transactionHash <$> txs)
    | None => []
    end
  else if decide (source = "hgraphio") then
    match transaction d with
    | Some txs =>
        sort ((λ tx,
                 let hash :=
                   if Str.startsWith escape_prefix (HGraph.transaction_hash tx)
                   then Str.slice 2 (HGraph.transaction_hash tx)
                   else HGraph.transaction_hash tx in
                 hash) <$> txs)
    | None => []
    end
  else [].

Definition compareAndGetStatus (dragonGlassHashes hgraphHashes : list string)
  : Comparison :=
  let dgSet : gset string := list_to_set dragonGlassHashes in
  let hgSet : gset string := list_to_set hgraphHashes in
  let missingInDragonGlass := filter (λ hash, hash ∉ dgSet) hgraphHashes in
  let missingInHGraph := filter (λ hash, hash ∉ hgSet) dragonGlassHashes in
  if decide (length missingInDragonGlass = 0%nat ∧ length missingInHGraph = 0%nat)
  then {| status := "ok"; discrepancies := None |}
  else {| status := "discrepancy_detected";
          discrepancies := Some {|
            missing_in_dragonglass := missingInDragonGlass;
            missing_in_hgraph := missingInHGraph;
            dragonglass_count := length dragonGlassHashes;
            hgraph_count := length hgraphHashes |} |}.

(** The canonical record of the earlier version: no [source] tag. *)
Record transaction := {
  transactionID : string;
  readableTransactionID : string;
  transactionHash : string;
  payerID : string;
  startTime : string;
  nodeID : string;
  consensusTime : string;
  transactionFee : Z;
  nodeFees : Z;
  networkFees : Z;
  transfers : list DG.Transfer.t;
  status : string;
  amount : Z;
  memo : string;
  transactionType : string;
  knownLabel : string;
  typeLabel : string;
  serviceType : string
}.

(** [new Date(Math.floor(x / 1000000)).toISOString()]; [None] when it
    throws. *)
Definition millisToISOString (x : jsval) : option string :=
  match toNumber x with
  | Some n => Date.toISOString (Double.fdiv_floor n 1000000)
  | None => None
  end.

(** [transfers.find(...)?.amount || 0], for the first transfer to the node
    account whatever its sign. *)
Definition node_amount_of (node : Z) (transfers : list DG.Transfer.t) : Z :=
  match List.find (λ t, bool_decide (DG.Transfer.accountID t = account node)) transfers with
  | Some t => if DG.Transfer.amount t =? 0 then 0 else DG.Transfer.amount t
  | None => 0
  end.

(** The callback of [transactions.map]; [None] when a date is invalid or
    [crypto_transfer] is missing ([tx.crypto_transfer.map] then throws). *)
Definition transformTransaction (tx : HGraph.transaction) : option transaction :=
  consensusTime ← millisToISOString (HGraph.consensus_timestamp tx);
  startTime ← millisToISOString (HGraph.valid_start_ns tx);
  (* not [NaN] here: [startTime] was produced from the same value *)
  validStart ← toNumber (HGraph.valid_start_ns tx);
  let transactionHash :=
    if Str.startsWith escape_prefix (HGraph.transaction_hash tx)
    then Str.slice 2 (HGraph.transaction_hash tx)
    else HGraph.transaction_hash tx in
  let readableTransactionID :=
    account (HGraph.payer_account_id tx) +:+ "@" +:+
    Double.toString (Double.fdiv_floor validStart 1000000000) +:+ "." +:+
    Double.toString (Double.rem validStart 1000000000) in
  crypto_transfer ← HGraph.crypto_transfer tx;
  let transfers :=
    (λ transfer, {| DG.Transfer.accountID := account (HGraph.entity_id transfer);
                    DG.Transfer.amount := HGraph.amount transfer |})
      <$> crypto_transfer in
  let amount :=
    foldl (λ sum t, js_add sum (Z.abs (DG.Transfer.amount t))) 0
          (List.filter (λ t, 0 <? DG.Transfer.amount t) transfers) in
  let transactionFee := HGraph.charged_tx_fee tx in
  let nodeFees := node_amount_of (HGraph.node_account_id tx) transfers in
  let networkFees := Double.sub transactionFee (Z.abs nodeFees) in
  Some {|
    transactionID :=
      "00" +:+ Double.toString (HGraph.payer_account_id tx) +:+
      toText (HGraph.valid_start_ns tx);
    readableTransactionID := readableTransactionID;
    transactionHash := transactionHash;
    payerID := account (HGraph.payer_account_id tx);
    startTime := startTime;
    nodeID := account (HGraph.node_account_id tx);
    consensusTime := consensusTime;
    transactionFee := transactionFee;
    nodeFees := Z.abs nodeFees;
    networkFees := networkFees;
    transfers := transfers;
    status := if HGraph.result tx =? 22 then "SUCCESS" else "FAILED";
    amount := amount;
    memo := default "" (HGraph.decoded_memo tx);
    transactionType := "CRYPTO_TRANSFER";
    knownLabel := "CryptoTransfer";
    typeLabel := "Crypto Transfer";
    serviceType := "CRYPTO"
  |}.

End Legacy.

(** * Properties *)

(** ** Hash cleaning *)

Lemma startsWith_prefix p s :
  Str.startsWith p s = true → ∃ rest, s = p +:+ rest.
Proof.
  revert s. induction p as [|a p IH]; intros s H; simpl in *.
  - by exists s.
  - destruct s as [|b s]; [done|].
    destruct (Ascii.eqb_spec a b) as [->|]; [|done].
    destruct (IH _ H) as [rest ->]. by exists rest.
Qed.

Lemma cleanTransactionHash_unprefixed h :
  Str.startsWith escape_prefix h = false → cleanTransactionHash h = h.
Proof. unfold cleanTransactionHash. by intros ->. Qed.

(** C4, as stated, fails: a hash that starts with two escape prefixes loses
    one of them at each application. *)
Lemma cleanTransactionHash_twice_differs :
  cleanTransactionHash "\x\xab" = "\xab" ∧
  cleanTransactionHash (cleanTransactionHash "\x\xab") = "ab" ∧
  cleanTransactionHash (cleanTransactionHash "\x\xab") ≠ cleanTransactionHash "\x\xab".
Proof. by vm_compute. Qed.

(** C4, amended: for every hash string that does not start with two escape
    prefixes in a row, stripping the prefix twice gives the same result as
    stripping it once. *)
Theorem cleanTransactionHash_idempotent (h : string) :
  Str.startsWith (escape_prefix +:+ escape_prefix) h = false →
  cleanTransactionHash (cleanTransactionHash h) = cleanTransactionHash h.
Proof.
  intros Hh. destruct (Str.startsWith escape_prefix h) eqn:Hp.
  - apply cleanTransactionHash_unprefixed.
    destruct (startsWith_prefix _ _ Hp) as [rest ->].
    unfold cleanTransactionHash. simpl in *.
    destruct rest as [|a [|b rest]]; simpl in *; try done.
  - by rewrite !(cleanTransactionHash_unprefixed h Hp).
Qed.

Lemma cleanTransactionHash_idempotent_witness :
  cleanTransactionHash (cleanTransactionHash "\xa1b2c3") = cleanTransactionHash "\xa1b2c3".
Proof. apply (cleanTransactionHash_idempotent "\xa1b2c3"). reflexivity. Defined.

(** The restriction is the exact one: with two prefixes the second pass
    always removes something more. *)
Lemma cleanTransactionHash_double_prefix_differs (h : string) :
  Str.startsWith (escape_prefix +:+ escape_prefix) h = true →
  cleanTransactionHash (cleanTransactionHash h) ≠ cleanTransactionHash h.
Proof.
  intros Hh. destruct (startsWith_prefix _ _ Hh) as [rest ->].
  vm_compute cleanTransactionHash. intros E.
  apply (f_equal String.length) in E. simpl in E. lia.
Qed.

(** ** Discrepancy comparator *)

Section comparator.

Implicit Types (dg hg : list string) (h : string).

(** Nothing of [hg] is filtered as missing exactly when every element of
    [hg] is an element of [dg]. *)
Lemma nothing_missing dg hg :
  length (filter (λ h, h ∉ (list_to_set dg : gset string)) hg) = 0%nat ↔
  (list_to_set hg : gset string) ⊆ list_to_set dg.
Proof.
  induction hg as [|h hg IH].
  - split; [intros _; apply empty_subseteq | done].
  - rewrite list_to_set_cons, union_subseteq, singleton_subseteq_l.
    destruct (decide (h ∈ (list_to_set dg : gset string))) as [Hin|Hin].
    + rewrite filter_cons_False by auto. rewrite IH. tauto.
    + rewrite filter_cons_True by done. simpl. split; [done | tauto].
Qed.

Lemma compare_decision dg hg :
  (length (filter (λ h, h ∉ (list_to_set dg : gset string)) hg) = 0%nat ∧
   length (filter (λ h, h ∉ (list_to_set hg : gset string)) dg) = 0%nat) ↔
  (list_to_set dg : gset string) = list_to_set hg.
Proof.
  rewrite !nothing_missing. split.
  - intros [Hhg Hdg]. by apply (anti_symm (⊆)).
  - by intros ->.
Qed.

(** C1: the status is "match" exactly when both lists have the same set of
    elements; with "match" the discrepancies are null, and otherwise the
    status is "discrepancy_detected" with a discrepancies payload. *)
Theorem compareAndGetStatus_match_iff_same_set dg hg :
  (status (compareAndGetStatus dg hg) = "match" ↔
     (list_to_set dg : gset string) = list_to_set hg) ∧
  (status (compareAndGetStatus dg hg) = "match" →
     discrepancies (compareAndGetStatus dg hg) = None) ∧
  (status (compareAndGetStatus dg hg) ≠ "match" →
     status (compareAndGetStatus dg hg) = "discrepancy_detected" ∧
     ∃ d, discrepancies (compareAndGetStatus dg hg) = Some d ∧
          missing_in_dragonglass d = filter (λ h, h ∉ (list_to_set dg : gset string)) hg ∧
          missing_in_hgraph d = filter (λ h, h ∉ (list_to_set hg : gset string)) dg ∧
          dragonglass_count d = length dg ∧
          hgraph_count d = length hg).
Proof.
  unfold compareAndGetStatus. case_decide as Hd; simpl.
  - apply compare_decision in Hd. by repeat split.
  - rewrite compare_decision in Hd. repeat split; try done. eauto 10.
Qed.

(** C6: what [compareAndGetStatus dg hg] reports as missing in
    dragonglass is what [compareAndGetStatus hg dg] reports as missing in
    hgraph (both null when the lists match). *)
Theorem compareAndGetStatus_symmetric dg hg :
  missing_in_dragonglass <$> discrepancies (compareAndGetStatus dg hg) =
  missing_in_hgraph <$> discrepancies (compareAndGetStatus hg dg).
Proof.
  unfold compareAndGetStatus. do 2 case_decide; simpl; try done; tauto.
Qed.

End comparator.

(** ** Hash extractor *)


(** ** Precision-fix transform *)

Lemma fixIntegerPrecision_object entries :
  fixIntegerPrecision (JObj entries) = JObj (fix_entries entries).
Proof. induction entries as [|[key value] rest IH]; [done|]. simpl in *. by inversion IH. Qed.

(** A timestamp number is either kept or turned into a string. *)
Lemma fix_number_cases v :
  fix_number v = JNum v ∨ ∃ s, fix_number v = JStr s.
Proof. unfold fix_number. repeat case_match; eauto. Qed.

Lemma fix_entries_idempotent entries :
  Forall (λ kv, fixIntegerPrecision (fixIntegerPrecision kv.2) = fixIntegerPrecision kv.2)
    entries →
  fix_entries (fix_entries entries) = fix_entries entries.
Proof.
  induction 1 as [|[key value] rest Hvalue _ IH]; [done|].
  cbn [fix_entries snd] in *.
  destruct (assigns_own key) eqn:Hown; [|exact IH].
  cbn [fix_entries]. rewrite Hown, IH. do 2 f_equal.
  destruct (is_timestamp_key key) eqn:Hkey; [|exact Hvalue].
  destruct value; try exact Hvalue.
  destruct (fix_number_cases v) as [E|[s E]]; rewrite !E; done.
Qed.

(** C9: a second pass of [fixIntegerPrecision] changes nothing: a rewritten
    timestamp field holds a string, which is left untouched, and a kept
    number is kept again. *)
Theorem fixIntegerPrecision_idempotent (v : json) :
  fixIntegerPrecision (fixIntegerPrecision v) = fixIntegerPrecision v.
Proof.
  induction v as [| | | | |items IH|entries IH] using json_tree_ind; try done.
  - simpl. f_equal. rewrite <- list_fmap_compose.
    apply Forall_fmap_ext_1. by simpl.
  - rewrite !fixIntegerPrecision_object. f_equal. by apply fix_entries_idempotent.
Qed.

(** C3, at the inputs where the code departs from it: a timestamp of 1e21
    is rendered as "1e+21", still in exponential notation; and the number
    read from the JSON text 1700000000123456789 is rendered as
    "1700000000123456800", whose digits are neither those of the number
    (1700000000123456768) nor those of the text. *)
Theorem fixIntegerPrecision_inexact_strings :
  fixIntegerPrecision (JObj [("consensus_timestamp", JNum (10 ^ 21))])
    = JObj [("consensus_timestamp", JStr "1e+21")] ∧
  Double.to_double 1700000000123456789 = 1700000000123456768 ∧
  fixIntegerPrecision (JObj [("valid_start_ns", JNum 1700000000123456768)])
    = JObj [("valid_start_ns", JStr "1700000000123456800")].
Proof. by vm_compute. Qed.

(** ** Numbers *)

(** The rounding and the texts of numbers on known values. *)
Example number_texts :
  Double.to_double (2 ^ 53 + 1) = 2 ^ 53 ∧
  Double.to_double (2 ^ 53 + 3) = 2 ^ 53 + 4 ∧
  Double.toString 26027 = "26027" ∧
  Double.toString (- 39000) = "-39000" ∧
  Double.toString (2 ^ 64) = "18446744073709552000" ∧
  Double.toString (10 ^ 21) = "1e+21" ∧
  Double.toString (Double.to_double (10 ^ 23)) = "1e+23" ∧
  Double.toString (2 ^ 70) = "1.1805916207174113e+21" ∧
  Double.ofString "1700000000123456789" = Some 1700000000123456768 ∧
  Double.ofString "nanos" = None.
Proof. vm_compute. repeat split. Qed.

(** Dates at the epoch, on a leap day, around the four-digit years and at
    the two ends of the range. *)
Example date_texts :
  Date.toISOString 0 = Some "1970-01-01T00:00:00.000Z" ∧
  Date.toISOString 1709251199999 = Some "2024-02-29T23:59:59.999Z" ∧
  Date.toISOString 253402300800000 = Some "+010000-01-01T00:00:00.000Z" ∧
  Date.toISOString (- 62167219200001) = Some "-000001-12-31T23:59:59.999Z" ∧
  Date.toISOString 8640000000000000 = Some "+275760-09-13T00:00:00.000Z" ∧
  Date.toISOString (- 8640000000000000) = Some "-271821-04-20T00:00:00.000Z" ∧
  Date.toISOString 8640000000000001 = None.
Proof. vm_compute. repeat split. Qed.

Lemma round_half_even_1 n : Double.round_half_even n 1 = n.
Proof.
  unfold Double.round_half_even. rewrite Z.mod_1_r, Z.div_1_r. done.
Qed.

(** Integers up to 2^53 in magnitude are numbers: rounding keeps them. *)
Lemma to_double_exact z : Z.abs z ≤ 2 ^ 53 → Double.to_double z = z.
Proof.
  intros Hz. unfold Double.to_double.
  destruct (Z.eqb_spec z 0) as [->|Hz0]; [done|].
  destruct (decide (Z.abs z = 2 ^ 53)) as [E|Hne].
  { rewrite E. vm_compute Double.round_pos. unfold Double.floor_scaled. simpl.
    destruct z; simpl in *; try done; lia. }
  assert (0 < Z.abs z < 2 ^ 53) as Ha by lia.
  assert (Z.sgn z * Z.abs z = z) as Hsgn by lia.
  revert Ha Hsgn. generalize (Z.abs z) as a. intros a Ha Hsgn.
  unfold Double.round_pos, Double.ulp_exp.
  assert (0 ≤ Z.log2 a < 53) as Hlog.
  { split; [apply Z.log2_nonneg|]. apply Z.log2_lt_pow2; lia. }
  pose proof (Z.log2_spec a ltac:(lia)) as [Hlo _].
  change (Z.log2 1) with 0.
  set (k := 52 - Z.log2 a).
  replace (Z.log2 a - 0 - 52) with (- k) by lia.
  replace (Z.max 0 (- - k)) with k by lia.
  replace (Z.max 0 (- k)) with 0 by lia.
  assert (2 ^ 52 ≤ a * 2 ^ k) as Hscaled.
  { replace 52 with (Z.log2 a + k) by lia. rewrite Z.pow_add_r by lia.
    apply Z.mul_le_mono_nonneg_r; [apply Z.pow_nonneg; lia | done]. }
  destruct (Z.ltb_spec (a * 2 ^ k) (1 * 2 ^ 0 * 2 ^ 52)) as [Hlt|_]; [lia|].
  replace (Z.max 0 (- - k)) with k by lia.
  replace (Z.max 0 (- k)) with 0 by lia.
  change (1 * 2 ^ 0) with 1. rewrite round_half_even_1.
  unfold Double.floor_scaled.
  destruct (Z.leb_spec 0 (- k)).
  - replace k with 0 by lia. replace (- 0) with 0 by lia. lia.
  - rewrite Z.opp_involutive, Z.div_mul; [done|].
    apply Z.pow_nonzero; lia.
Qed.

(** ** Canonicalizer: fees *)



Lemma is_node_fee_spec node t :
  is_node_fee node t = true ↔
  DG.Transfer.accountID t = account node ∧ 0 < DG.Transfer.amount t.
Proof.
  unfold is_node_fee. rewrite andb_true_iff, bool_decide_eq_true, Z.ltb_lt. done.
Qed.

(** ** Canonicalizer: records *)

Lemma nanosToISOString_convertible x :
  is_Some (nanosToISOString x) ↔ convertible x = true.
Proof.
  unfold nanosToISOString, convertible, Date.toISOString.
  destruct (toNumber x) as [n|]; [|split; [by intros [? ?]|done]].
  destruct (Date.valid _); [|split; [by intros [? ?]|done]].
  destruct (Date.civil_from_days _) as [[y m] d]. split; eauto.
Qed.

Lemma transformTransaction_convertible tx :
  is_Some (transformTransaction tx) ↔ tx_convertible tx = true.
Proof.
  unfold tx_convertible. rewrite andb_true_iff, <- !nanosToISOString_convertible.
  unfold transformTransaction. split.
  - intros [c Hc]. simplify_option_eq. eauto.
  - intros [[s1 H1] [s2 H2]]. rewrite H1, H2. simpl.
    assert (is_Some (toNumber (HGraph.valid_start_ns tx))) as [n ->]; [|by eexists].
    unfold nanosToISOString in H2. destruct (toNumber _); [eauto|done].
Qed.

Lemma transformed_source txs cs :
  mapM transformTransaction txs = Some cs →
  Forall (λ c, DG.source c = "hgraphio") cs.
Proof.
  intros H. apply mapM_Some in H.
  induction H as [|tx c txs cs Hc _ IH]; constructor; [|done].
  unfold transformTransaction in Hc. by simplify_option_eq.
Qed.



(** ** Canonicalizer: facets *)

Lemma total_count_count_payer payers tx :
  total_count (count_payer payers tx) = S (total_count payers).
Proof.
  unfold total_count, count_payer.
  set (f := λ (_ : string) (c acc : nat), (c + acc)%nat).
  assert (∀ (m : gmap string nat) j1 j2 z1 z2 y,
    j1 ≠ j2 → m !! j1 = Some z1 → m !! j2 = Some z2 →
    f j1 z1 (f j2 z2 y) = f j2 z2 (f j1 z1 y)) as Hcomm
    by (intros; unfold f; lia).
  destruct (payers !! DG.payerID tx) as [c|] eqn:Hc; simpl.
  - rewrite <- (insert_delete_eq payers).
    rewrite (map_fold_delete_L f _ _ _ payers (Hcomm _) Hc).
    rewrite map_fold_insert_L; [unfold f; lia|apply Hcomm|apply lookup_delete_eq].
  - rewrite map_fold_insert_L; [unfold f; lia|apply Hcomm|done].
Qed.

Lemma total_count_foldl cs payers :
  total_count (foldl count_payer payers cs) = (total_count payers + length cs)%nat.
Proof.
  revert payers. induction cs as [|c cs IH]; intros payers; simpl; [lia|].
  rewrite IH, total_count_count_payer. lia.
Qed.

(** ** Canonicalizer: the envelope *)

Lemma transformHGraphToDragonGlass_returns txs :
  Forall (λ tx, tx_convertible tx = true) txs →
  ∃ cs, mapM transformTransaction txs = Some cs ∧
        transformHGraphToDragonGlass (TxList txs) = Some {|
          DG.size := length cs;
          DG.totalCount := length cs;
          DG.data := cs;
          DG.facets := {|
            DG.transactionTypes := {[ "CRYPTO_TRANSFER" := length cs ]};
            DG.payerIDs := foldl count_payer ∅ cs;
            DG.serviceTypes := {[ "CRYPTO" := length cs ]} |};
          DG.mapping := None |}.
Proof.
  intros Hall.
  assert (is_Some (mapM transformTransaction txs)) as [cs Hcs].
  { apply mapM_is_Some. eapply Forall_impl; [exact Hall|].
    intros tx Htx. by apply transformTransaction_convertible. }
  exists cs. split; [done|]. simpl. by rewrite Hcs.
Qed.




(** C10: for a transaction list of length n, an envelope is produced as
    soon as the timestamps convert, and every envelope produced has
    size = totalCount = n = the length of data, both fixed buckets counting
    n, per-payer counts that sum to n, and the tag "hgraphio" on every
    record. *)
Theorem transformHGraphToDragonGlass_counts (txs : list HGraph.transaction) :
  (Forall (λ tx, tx_convertible tx = true) txs →
     is_Some (transformHGraphToDragonGlass (TxList txs))) ∧
  (∀ env, transformHGraphToDragonGlass (TxList txs) = Some env →
     DG.size env = length txs ∧
     DG.totalCount env = length txs ∧
     length (DG.data env) = length txs ∧
     DG.transactionTypes (DG.facets env) = {[ "CRYPTO_TRANSFER" := length txs ]} ∧
     DG.serviceTypes (DG.facets env) = {[ "CRYPTO" := length txs ]} ∧
     total_count (DG.payerIDs (DG.facets env)) = length txs ∧
     Forall (λ c, DG.source c = "hgraphio") (DG.data env)).
Proof.
  split.
  - intros Hall.
    destruct (transformHGraphToDragonGlass_returns txs Hall) as (cs & _ & ->). eauto.
  - intros env Henv. simpl in Henv.
    destruct (mapM transformTransaction txs) as [cs|] eqn:Hcs; [|done].
    simpl in Henv. injection Henv as <-. simpl.
    rewrite (length_mapM _ _ _ Hcs).
    repeat split; try done.
    + rewrite total_count_foldl. unfold total_count. by rewrite map_fold_empty.
    + by eapply transformed_source.
Qed.

Lemma transformHGraphToDragonGlass_counts_witness :
  ∃ env, transformHGraphToDragonGlass (TxList [sample_tx; sample_tx; sample_tx]) = Some env ∧
         DG.size env = 3%nat ∧
         total_count (DG.payerIDs (DG.facets env)) = 3%nat.
Proof.
  destruct (transformHGraphToDragonGlass_counts [sample_tx; sample_tx; sample_tx])
    as [Hsome Hcounts].
  destruct Hsome as [env Henv]; [forall_by_evaluation|].
  exists env. split; [exact Henv|].
  destruct (Hcounts env Henv) as (Hsize & _ & _ & _ & _ & Htotal & _).
  split; [exact Hsize | exact Htotal].
Defined.

(** ** Canonicalizer: timestamps *)

(** C2, at an input where the code departs from it: [consensusTime] shows
    the fraction .456768 (456768000 ns) for a timestamp whose sub-second
    part is 123456789 ns, and [startTime] shows .000000 for a valid start
    whose sub-second part is 500000000 ns.  The millisecond digits are
    replaced by the six digits below the millisecond, and for the first
    timestamp those are taken from the number nearest to the text. *)
Theorem transformTransaction_fraction_not_nanoseconds :
  DG.consensusTime <$> transformTransaction sample_tx
    = Some "2023-11-14T22:13:20.456768Z" ∧
  fractional_nanos "2023-11-14T22:13:20.456768Z" = Some 456768000 ∧
  1700000000123456789 `mod` 10 ^ 9 = 123456789 ∧
  DG.startTime <$> transformTransaction sample_tx
    = Some "1970-01-01T00:00:01.000000Z" ∧
  fractional_nanos "1970-01-01T00:00:01.000000Z" = Some 0 ∧
  1500000000 `mod` 10 ^ 9 = 500000000.
Proof. vm_compute. repeat split. Qed.

(** * Further properties of the hash cleaning *)

(** Stripping undoes the escaping: a hash with the prefix put in front
    cleans back to the hash, and every hash is either returned as it is or
    is the prefix followed by its cleaned form. *)
Theorem cleanTransactionHash_escaped (h : string) :
  cleanTransactionHash (escape_prefix +:+ h) = h ∧
  (cleanTransactionHash h = h ∨ h = escape_prefix +:+ cleanTransactionHash h).
Proof.
  split; [reflexivity|].
  unfold cleanTransactionHash.
  destruct (Str.startsWith escape_prefix h) eqn:Hp; [right|by left].
  by destruct (startsWith_prefix _ _ Hp) as [rest ->].
Qed.

(** * Further properties of the comparison functions *)

(** ** What the comparator reports *)

(** A discrepancies payload lists exactly the hashes of one list that the
    other lacks, in their original order; no hash is reported on both sides,
    and a payload never has both lists empty. *)
Theorem compareAndGetStatus_payload (dg hg : list string) (d : Discrepancies) :
  discrepancies (compareAndGetStatus dg hg) = Some d →
  (∀ h, h ∈ missing_in_dragonglass d ↔ h ∈ hg ∧ h ∉ dg) ∧
  (∀ h, h ∈ missing_in_hgraph d ↔ h ∈ dg ∧ h ∉ hg) ∧
  missing_in_dragonglass d `sublist_of` hg ∧
  missing_in_hgraph d `sublist_of` dg ∧
  (∀ h, h ∈ missing_in_dragonglass d → h ∉ missing_in_hgraph d) ∧
  (0 < length (missing_in_dragonglass d) + length (missing_in_hgraph d))%nat.
Proof.
  unfold compareAndGetStatus. case_decide as Hd; [done|].
  intros [= <-]. simpl.
  assert (∀ (l k : list string) h,
    h ∈ filter (λ h, h ∉ (list_to_set l : gset string)) k ↔ h ∈ k ∧ h ∉ l) as Hmem.
  { intros l k h. rewrite list_elem_of_filter, elem_of_list_to_set. tauto. }
  split_and!; try (intros h; by apply Hmem); try apply sublist_filter.
  - intros h Hh Hh'. apply Hmem in Hh, Hh'. tauto.
  - lia.
Qed.

Lemma compareAndGetStatus_payload_witness :
  ∃ d, discrepancies (compareAndGetStatus ["aa"; "bb"; "cc"] ["bb"; "dd"; "aa"; "ee"]) = Some d ∧
       missing_in_dragonglass d `sublist_of` ["bb"; "dd"; "aa"; "ee"] ∧
       ("cc" ∈ missing_in_hgraph d).
Proof.
  destruct (discrepancies (compareAndGetStatus ["aa"; "bb"; "cc"] ["bb"; "dd"; "aa"; "ee"]))
    as [d|] eqn:E; [|vm_compute in E; discriminate].
  exists d. split; [reflexivity|].
  destruct (compareAndGetStatus_payload _ _ _ E) as (_ & Hhg & Hsub & _).
  split; [exact Hsub|]. apply Hhg. split.
  - do 2 right. left.
  - intros Hin. repeat (apply elem_of_cons in Hin as [Hin|Hin]; [discriminate Hin|]).
    by apply elem_of_nil in Hin.
Defined.

(** The verdict depends on the two lists only through their sets of
    elements: reordering a list or repeating a hash never changes it. *)
Theorem compareAndGetStatus_status_of_sets (dg dg' hg hg' : list string) :
  (list_to_set dg : gset string) = list_to_set dg' →
  (list_to_set hg : gset string) = list_to_set hg' →
  status (compareAndGetStatus dg hg) = status (compareAndGetStatus dg' hg').
Proof.
  intros Hdg Hhg. unfold compareAndGetStatus.
  case_decide as Hd; case_decide as Hd'; try done;
    rewrite compare_decision in Hd, Hd'; congruence.
Qed.

Lemma compareAndGetStatus_status_of_sets_witness :
  status (compareAndGetStatus ["aa"; "bb"] ["bb"; "aa"]) =
  status (compareAndGetStatus ["bb"; "aa"; "bb"] ["aa"; "bb"; "aa"]).
Proof.
  apply compareAndGetStatus_status_of_sets; apply set_eq; intros h;
    rewrite !elem_of_list_to_set, !elem_of_cons, !elem_of_nil; tauto.
Defined.

(** ** The order of the hash lists *)

(** Two sorted lists with the same elements, repetitions counted, are the
    same list. *)
Lemma sort_Permutation (l k : list string) : l ≡ₚ k → sort l = sort k.
Proof.
  intros Hlk. unfold sort. apply (Sorted_unique Str.le).
  - apply (Sorted_merge_sort _).
  - apply (Sorted_merge_sort _).
  - by rewrite !merge_sort_Permutation.
Qed.

(** ** Hash extractor *)

(** The hash list has one entry per record: repeated hashes are kept, so
    the counts reported by the comparator are counts of records. *)
Theorem createCanonicalHashArray_length (d : ResponseData) :
  length (createCanonicalHashArray d "dragonglass") = length (default [] (data d)) ∧
  length (createCanonicalHashArray d "hgraphio") = length (default [] (transaction d)).
Proof.
  unfold createCanonicalHashArray, sort. simpl.
  split; case_match; simpl; try done;
    by rewrite merge_sort_Permutation, length_fmap.
Qed.

(** The hash list does not depend on the order in which a provider returns
    its records. *)
Theorem createCanonicalHashArray_order_free
    (records records' : list DG.transaction)
    (txs txs' : list HGraph.transaction) (source : string) :
  records ≡ₚ records' → txs ≡ₚ txs' →
  createCanonicalHashArray {| data := Some records; transaction := Some txs |} source =
  createCanonicalHashArray {| data := Some records'; transaction := Some txs' |} source.
Proof.
  intros Hrecords Htxs. unfold createCanonicalHashArray. simpl.
  repeat case_decide; try done; apply sort_Permutation; by f_equiv.
Qed.

Lemma createCanonicalHashArray_order_free_witness :
  createCanonicalHashArray
    {| data := Some []; transaction := Some [sample_tx; out_of_range_tx] |} "hgraphio" =
  createCanonicalHashArray
    {| data := Some []; transaction := Some [out_of_range_tx; sample_tx] |} "hgraphio".
Proof.
  apply createCanonicalHashArray_order_free; [done | apply Permutation_swap].
Defined.

(** The canonicalizer keeps the hashes: the envelope it produces, read as
    the explorer's, gives the same hash list as the indexer's raw data. *)
Theorem createCanonicalHashArray_of_transformed
    (txs : list HGraph.transaction) (env : DG.Envelope) (d d' : ResponseData) :
  transformHGraphToDragonGlass (TxList txs) = Some env →
  data d = Some (DG.data env) → transaction d' = Some txs →
  createCanonicalHashArray d "dragonglass" = createCanonicalHashArray d' "hgraphio".
Proof.
  intros Henv Hd Hd'. unfold createCanonicalHashArray. simpl. rewrite Hd, Hd'.
  clear Hd Hd'. f_equal. simpl in Henv.
  destruct (mapM transformTransaction txs) as [cs|] eqn:Hcs; [|done].
  injection Henv as <-. simpl. apply mapM_Some in Hcs.
  induction Hcs as [|tx c txs cs Hc _ IH]; [done|]. simpl. f_equal; [|done].
  unfold transformTransaction in Hc. by simplify_option_eq.
Qed.

Lemma createCanonicalHashArray_of_transformed_witness :
  ∃ env, transformHGraphToDragonGlass (TxList [sample_tx]) = Some env ∧
         createCanonicalHashArray {| data := Some (DG.data env); transaction := None |} "dragonglass" =
         createCanonicalHashArray {| data := None; transaction := Some [sample_tx] |} "hgraphio".
Proof.
  destruct (transformHGraphToDragonGlass (TxList [sample_tx])) as [env|] eqn:E;
    [|vm_compute in E; discriminate].
  exists env. split; [reflexivity|].
  by apply (createCanonicalHashArray_of_transformed [sample_tx] env).
Defined.

(** * Further properties of the canonicalizer *)

(** ** Facets *)

Lemma foldl_count_payer_lookup (cs : list DG.transaction) (payers : gmap string nat) k :
  foldl count_payer payers cs !! k =
  match length (filter (λ c, DG.payerID c = k) cs) with
  | O => payers !! k
  | S n => Some (default 0 (payers !! k) + S n)%nat
  end.
Proof.
  revert payers. induction cs as [|c cs IH]; intros payers; [done|].
  cbn [foldl]. rewrite IH. unfold count_payer.
  destruct (decide (DG.payerID c = k)) as [Heq|Hne].
  - rewrite filter_cons_True by done. rewrite Heq, lookup_insert_eq. simpl.
    destruct (length _); f_equal; lia.
  - rewrite filter_cons_False by done. by rewrite lookup_insert_ne.
Qed.

(** The payer facet counts, for each payer, the records of the envelope
    paid by that payer; a payer without records has no entry. *)
Theorem transformHGraphToDragonGlass_payer_facet
    (txs : list HGraph.transaction) (env : DG.Envelope) (payer : string) :
  transformHGraphToDragonGlass (TxList txs) = Some env →
  DG.payerIDs (DG.facets env) !! payer =
  match length (filter (λ c, DG.payerID c = payer) (DG.data env)) with
  | O => None
  | S n => Some (S n)
  end.
Proof.
  intros Henv. simpl in Henv.
  destruct (mapM transformTransaction txs) as [cs|]; [|done].
  injection Henv as <-. simpl. rewrite foldl_count_payer_lookup.
  by rewrite lookup_empty.
Qed.

Lemma transformHGraphToDragonGlass_payer_facet_witness :
  ∃ env, transformHGraphToDragonGlass (TxList [sample_tx; sample_tx]) = Some env ∧
         DG.payerIDs (DG.facets env) !! "0.0.26027" = Some 2%nat ∧
         DG.payerIDs (DG.facets env) !! "0.0.3" = None.
Proof.
  destruct (transformHGraphToDragonGlass (TxList [sample_tx; sample_tx])) as [env|] eqn:E;
    [|vm_compute in E; discriminate].
  exists env. split; [reflexivity|].
  rewrite !(transformHGraphToDragonGlass_payer_facet _ _ _ E).
  vm_compute in E. injection E as <-. split; reflexivity.
Defined.

(** ** Fees *)

Lemma node_fee_of_nonneg node transfers : 0 ≤ node_fee_of node transfers.
Proof.
  unfold node_fee_of. destruct (List.find _ _) as [t|] eqn:Hfind; [|done].
  apply find_some in Hfind as [_ Ht]. apply is_node_fee_spec in Ht.
  destruct (Z.eqb_spec (DG.Transfer.amount t) 0); lia.
Qed.

(** The node fee is never negative, so the network fee never exceeds the
    transaction fee (as long as their difference is exact); without any
    transfer the node fee is 0 and the network fee is the whole fee. *)
Theorem transformTransaction_fee_bounds (tx : HGraph.transaction) (c : DG.transaction) :
  transformTransaction tx = Some c →
  0 ≤ DG.nodeFees c ∧
  (Z.abs (DG.transactionFee c - DG.nodeFees c) ≤ 2 ^ 53 →
     DG.networkFees c ≤ DG.transactionFee c) ∧
  (default [] (HGraph.crypto_transfer tx) = [] →
     DG.transfers c = [] ∧ DG.nodeFees c = 0 ∧
     (Z.abs (DG.transactionFee c) ≤ 2 ^ 53 → DG.networkFees c = DG.transactionFee c)).
Proof.
  unfold transformTransaction. intros Hc. simplify_option_eq.
  pose proof (node_fee_of_nonneg (HGraph.node_account_id tx)
    ((λ transfer, {| DG.Transfer.accountID := account (HGraph.entity_id transfer);
                     DG.Transfer.amount := HGraph.amount transfer |})
       <$> default [] (HGraph.crypto_transfer tx))) as Hnonneg.
  split_and!.
  - done.
  - intros Hexact. unfold Double.sub. rewrite to_double_exact by done. lia.
  - intros ->. simpl. split_and!; try done.
    intros Hfee. unfold Double.sub. rewrite Z.sub_0_r. by apply to_double_exact.
Qed.

Lemma transformTransaction_fee_bounds_witness :
  ∃ c, transformTransaction sample_tx = Some c ∧
       0 ≤ DG.nodeFees c ∧ DG.networkFees c ≤ DG.transactionFee c.
Proof.
  destruct (transformTransaction sample_tx) as [c|] eqn:E;
    [|vm_compute in E; discriminate].
  exists c. split; [reflexivity|].
  destruct (transformTransaction_fee_bounds sample_tx c E) as (Hnode & Hnet & _).
  split; [exact Hnode|]. apply Hnet.
  vm_compute in E. injection E as <-. discriminate.
Defined.

(** * Further properties of the arithmetic on timestamps *)

(** ** Division of numbers followed by [Math.floor] *)

Lemma round_half_even_cases n d : 0 < d →
  (Double.round_half_even n d = n / d ∧ 2 * (n mod d) ≤ d) ∨
  (Double.round_half_even n d = n / d + 1 ∧ d ≤ 2 * (n mod d)).
Proof.
  intros Hd. unfold Double.round_half_even.
  destruct (Z.ltb_spec (2 * (n mod d)) d); [left; lia|].
  destruct (Z.ltb_spec d (2 * (n mod d))); [right; lia|].
  destruct (Z.even (n / d)); [left|right]; lia.
Qed.

Lemma round_half_even_floor a d K :
  0 ≤ a → 0 < d → 0 < K → d < 2 * K →
  Double.round_half_even (a * K) d / K = a / d ∧ (- Double.round_half_even (a * K) d) / K = (- a) / d.
Proof.
  intros Ha Hd HK HdK.
  pose proof (Z.div_mod a d ltac:(lia)) as Ea.
  pose proof (Z.mod_pos_bound a d Hd) as Hr.
  pose proof (Z.div_mod (a * K) d ltac:(lia)) as EN.
  pose proof (Z.mod_pos_bound (a * K) d Hd) as HR.
  pose proof (round_half_even_cases (a * K) d Hd) as Hm.
  revert Ea Hr EN HR Hm.
  generalize (Double.round_half_even (a * K) d) as m.
  generalize ((a * K) mod d) as R. generalize (a * K / d) as Q.
  generalize (a mod d) as r.
  intros r Q R m Ea Hr EN HR Hm.
  assert (a / d * K ≤ Q) as HQlo by nia.
  assert (Q < (a / d + 1) * K) as HQhi by nia.
  assert (0 ≤ a / d) as Hq by (apply Z.div_pos; lia).
  assert ((- a) / d = if decide (r = 0) then - (a / d) else - (a / d) - 1) as Hneg.
  { case_decide.
    - symmetry. apply (Z.div_unique_pos _ _ _ 0); lia.
    - symmetry. apply (Z.div_unique_pos _ _ _ (d - r)); lia. }
  rewrite Hneg. clear Hneg.
  revert Ea Hq HQlo HQhi. generalize (a / d) as q. intros q Ea Hq HQlo HQhi.
  split.
  - symmetry. apply (Z.div_unique_pos _ _ _ (m - q * K)); [|lia].
    destruct Hm as [[-> _]|[-> Hup]]; [lia|].
    split; [lia|].
    destruct (Z.eq_dec Q ((q + 1) * K - 1)) as [E|]; [|lia].
    exfalso. nia.
  - symmetry. case_decide as Hr0.
    + assert (Q = q * K ∧ R = 0) as [-> ->] by nia.
      destruct Hm as [[-> _]|[-> Hup]]; [|lia].
      apply (Z.div_unique_pos _ _ _ 0); lia.
    + destruct Hm as [[-> Hdown]|[-> Hup]].
      * apply (Z.div_unique_pos _ _ _ ((q + 1) * K - Q)); [|lia].
        split; [lia|]. destruct (Z.eq_dec Q (q * K)) as [E|]; [|lia]. exfalso. nia.
      * apply (Z.div_unique_pos _ _ _ ((q + 1) * K - Q - 1)); lia.
Qed.


(** For a dividend below 2^53 in magnitude the exponent is [- k] with
    [2^52 * d <= a * 2^k]: the quotient is kept to within 2^-k, finer than
    the spacing 1/d of the exact quotients. *)
Lemma ulp_exp_safe a d :
  0 < a < 2 ^ 53 → 0 < d →
  ∃ k, 0 ≤ k ∧ Double.ulp_exp a d = - k ∧ 2 ^ 52 * d ≤ a * 2 ^ k.
Proof.
  intros [Ha Hlt] Hd. unfold Double.ulp_exp.
  pose proof (Z.log2_spec a Ha) as [Hla Hla'].
  pose proof (Z.log2_spec d Hd) as [Hld Hld'].
  pose proof (Z.log2_nonneg a). pose proof (Z.log2_nonneg d).
  assert (Z.log2 a < 53) by (apply Z.log2_lt_pow2; lia).
  set (la := Z.log2 a) in *. set (ld := Z.log2 d) in *.
  replace (Z.max 0 (- (la - ld - 52))) with (52 + ld - la) by lia.
  replace (Z.max 0 (la - ld - 52)) with 0 by lia.
  assert (2 ^ la * 2 ^ (52 + ld - la) = 2 ^ 52 * 2 ^ ld) as Hpow.
  { rewrite <- !Z.pow_add_r by lia. f_equal. lia. }
  rewrite Z.pow_succ_r in Hld' by lia.
  assert (0 < 2 ^ (52 + ld - la)) by (apply Z.pow_pos_nonneg; lia).
  destruct (Z.ltb_spec (a * 2 ^ (52 + ld - la)) (d * 2 ^ 0 * 2 ^ 52)) as [Hc|Hc].
  - exists (52 + ld - la + 1). split_and!; [lia|lia|].
    rewrite Z.pow_add_r by lia. nia.
  - exists (52 + ld - la). split_and!; [lia|lia|]. lia.
Qed.

(** Below 2^53 in magnitude, [Math.floor(x / d)] is the exact floor of the
    quotient: the rounding of the division never reaches the next integer. *)
Lemma fdiv_floor_exact x d :
  Z.abs x < 2 ^ 53 → 0 < d → Double.fdiv_floor x d = x / d.
Proof.
  intros Hx Hd. unfold Double.fdiv_floor.
  destruct (Z.eqb_spec x 0) as [->|Hx0]; [done|].
  destruct (ulp_exp_safe (Z.abs x) d) as (k & Hk & He & Hlow); [lia|done|].
  unfold Double.round_pos. rewrite He.
  replace (Z.max 0 (- - k)) with k by lia.
  replace (Z.max 0 (- k)) with 0 by lia.
  rewrite Z.pow_0_r, Z.mul_1_r.
  assert (0 < 2 ^ k) as HK by (apply Z.pow_pos_nonneg; lia).
  destruct (round_half_even_floor (Z.abs x) d (2 ^ k)) as [Hpos Hneg]; [lia|done|done|nia|].
  assert (Double.floor_scaled (Z.sgn x * Double.round_half_even (Z.abs x * 2 ^ k) d) (- k)
          = (Z.sgn x * Double.round_half_even (Z.abs x * 2 ^ k) d) / 2 ^ k) as ->.
  { unfold Double.floor_scaled. destruct (Z.leb_spec 0 (- k)).
    - replace k with 0 by lia. simpl. by rewrite Z.mul_1_r, Z.div_1_r.
    - by rewrite Z.opp_involutive. }
  destruct (Z.lt_ge_cases x 0).
  - rewrite Z.sgn_neg by done. rewrite Z.abs_neq in Hneg by lia.
    rewrite Z.opp_involutive in Hneg. rewrite <- Hneg. f_equal.
    rewrite Z.abs_neq by lia. lia.
  - rewrite Z.sgn_pos by lia. rewrite Z.abs_eq in Hpos by lia.
    rewrite <- Hpos. f_equal. rewrite Z.abs_eq by lia. lia.
Qed.


(** ** The parts of a readable transaction id *)

(** For a valid start below 2^53 in magnitude, the readable id shows the
    exact whole seconds and the exact remainder of the division by 10^9;
    when the valid start is not negative the two recompose to it. *)
Theorem transformTransaction_readable_id
    (tx : HGraph.transaction) (c : DG.transaction) (n : Z) :
  transformTransaction tx = Some c →
  toNumber (HGraph.valid_start_ns tx) = Some n →
  Z.abs n < 2 ^ 53 →
  DG.readableTransactionID c =
    account (HGraph.payer_account_id tx) +:+ "@" +:+
    Double.toString (n / 1000000000) +:+ "." +:+
    Double.toString (Z.rem n 1000000000) ∧
  (0 ≤ n → n / 1000000000 * 1000000000 + Z.rem n 1000000000 = n).
Proof.
  unfold transformTransaction. intros Hc Hn Hsafe. simplify_option_eq. split.
  - by rewrite fdiv_floor_exact.
  - intros Hpos. rewrite Z.rem_mod_nonneg by lia.
    pose proof (Z.div_mod n 1000000000). lia.
Qed.

Lemma transformTransaction_readable_id_witness :
  ∃ c, transformTransaction sample_tx = Some c ∧
       DG.readableTransactionID c = "0.0.26027@1.500000000".
Proof.
  destruct (transformTransaction sample_tx) as [c|] eqn:E;
    [|vm_compute in E; discriminate].
  exists c. split; [reflexivity|].
  destruct (transformTransaction_readable_id sample_tx c 1500000000 E) as [-> _];
    [reflexivity | reflexivity | vm_compute; reflexivity].
Defined.

(** ** Timestamps that convert *)




(** ** The text of a converted timestamp *)










(** * Further properties of the precision-fix transform *)

Lemma fix_number_kept v : kept_number v = true → fix_number v = JNum v.
Proof.
  unfold kept_number, fix_number. intros [H1 H2]%andb_true_iff.
  apply negb_true_iff in H1, H2. by rewrite H1, H2.
Qed.

Lemma fix_number_settled v :
  (fix_number v = JNum v ∧ kept_number v = true) ∨ ∃ s, fix_number v = JStr s.
Proof.
  unfold fix_number, kept_number.
  destruct (Str.includes _ _) eqn:H1; [eauto|].
  destruct (_ >? _) eqn:H2; [eauto|]. by left.
Qed.

Lemma settled_fixed (j : json) : settled j = true → fixIntegerPrecision j = j.
Proof.
  induction j as [| | | | |items IH|entries IH] using json_tree_ind; try done.
  - simpl. intros Hall. f_equal. rewrite forallb_forall in Hall.
    rewrite <- (list_fmap_id items) at 2. apply Forall_fmap_ext_1.
    rewrite Forall_forall in IH |- *. intros x Hx. apply IH; [done|].
    apply Hall. by apply list_elem_of_In.
  - rewrite fixIntegerPrecision_object. intros Hall. f_equal.
    cbn [settled] in Hall.
    induction IH as [|[key value] rest Hvalue _ IHrest]; [done|].
    cbn [forallb] in Hall. apply andb_true_iff in Hall as [Hhead Hrest].
    apply andb_true_iff in Hhead as [Hown Hhead].
    cbn [fix_entries snd] in *. rewrite Hown, (IHrest Hrest). do 2 f_equal.
    destruct (is_timestamp_key key); [|by apply Hvalue].
    destruct value; try (by apply Hvalue). by apply fix_number_kept.
Qed.

Lemma fixIntegerPrecision_settled (j : json) : settled (fixIntegerPrecision j) = true.
Proof.
  induction j as [| | | | |items IH|entries IH] using json_tree_ind; try done.
  - simpl. apply forallb_forall. intros y Hy%list_elem_of_In.
    apply list_elem_of_fmap in Hy as (x & -> & Hx).
    rewrite Forall_forall in IH. by apply IH.
  - rewrite fixIntegerPrecision_object. cbn [settled].
    induction IH as [|[key value] rest Hvalue _ IHrest]; [done|].
    cbn [fix_entries snd] in *.
    destruct (assigns_own key) eqn:Hown; [|done].
    cbn [forallb]. rewrite Hown, IHrest, andb_true_r. simpl.
    destruct (is_timestamp_key key); [|by destruct (fixIntegerPrecision value)].
    destruct value; try exact Hvalue.
    destruct (fix_number_settled v) as [[-> Hkept]|[s ->]]; done.
Qed.

(** The result of the pass has nothing left to fix, and the values the pass
    returns unchanged are exactly those with nothing to fix: no property
    named [__proto__], and in the two timestamp fields only numbers that are
    safe and not exponential. *)
Theorem fixIntegerPrecision_fixed_points (j : json) :
  settled (fixIntegerPrecision j) = true ∧
  (fixIntegerPrecision j = j ↔ settled j = true).
Proof.
  split; [apply fixIntegerPrecision_settled|]. split.
  - intros Hj. rewrite <- Hj. apply fixIntegerPrecision_settled.
  - apply settled_fixed.
Qed.

(** An object keeps its property names in their order, except for
    [__proto__], which is dropped; an array keeps its length. *)
Theorem fixIntegerPrecision_shape (entries : list (string * json)) (items : list json) :
  (∃ fixed, fixIntegerPrecision (JObj entries) = JObj fixed ∧
            fixed.*1 = List.filter assigns_own entries.*1) ∧
  (∃ fixed, fixIntegerPrecision (JArr items) = JArr fixed ∧
            length fixed = length items).
Proof.
  split.
  - exists (fix_entries entries). split; [apply fixIntegerPrecision_object|].
    induction entries as [|[key value] rest IH]; [done|]. simpl.
    destruct (assigns_own key); simpl; [f_equal|]; exact IH.
  - exists (fixIntegerPrecision <$> items). split; [done|]. apply length_fmap.
Qed.

(** * Properties of the route handlers *)

Lemma Ok_inj {A} (a b : A) : Ok a = Ok b → a = b.
Proof. by intros [= ->]. Qed.

Lemma elem_of_sort h (l : list string) : h ∈ sort l ↔ h ∈ l.
Proof. unfold sort. by rewrite merge_sort_Permutation. Qed.

Lemma length_sort (l : list string) : length (sort l) = length l.
Proof. unfold sort. by rewrite merge_sort_Permutation. Qed.

Lemma list_to_set_sort (l : list string) :
  (list_to_set (sort l) : gset string) = list_to_set l.
Proof. apply set_eq. intros h. by rewrite !elem_of_list_to_set, elem_of_sort. Qed.

(** The hashes the two providers returned, before sorting. *)
Lemma explorer_hashes (d : Explorer.Data) :
  createCanonicalHashArray (explorer_response d) "dragonglass" =
  sort (DG.transactionHash <$> default [] (Explorer.data d)).
Proof.
  unfold createCanonicalHashArray, explorer_response. simpl.
  destruct (Explorer.data d); [done|]. by vm_compute.
Qed.

Lemma hgraph_hashes (t : option (list HGraph.transaction)) :
  createCanonicalHashArray (hgraph_response t) "hgraphio" =
  sort ((λ tx, cleanTransactionHash (HGraph.transaction_hash tx)) <$> default [] t).
Proof.
  unfold createCanonicalHashArray, hgraph_response. simpl.
  destruct t; [done|]. by vm_compute.
Qed.

(** The compare handler attaches the canonicalized indexer data exactly
    when it reports a discrepancy, that is exactly when the two providers'
    sets of hashes differ; the primary payload is the explorer's in every
    case. *)
Theorem compareHandler_additional_data
    (payerID query accountFrom : option string)
    (dragonGlassResult : Provider.Result Explorer.Data)
    (hgraphResult : Provider.Result (option (list HGraph.transaction)))
    (r : Report.t) :
  compareHandler payerID query accountFrom dragonGlassResult hgraphResult = Ok r →
  (Report.status r = "match" ↔
     (list_to_set (DG.transactionHash <$>
        default [] (Explorer.data (Provider.data dragonGlassResult))) : gset string) =
     list_to_set ((λ tx, cleanTransactionHash (HGraph.transaction_hash tx)) <$>
        default [] (Provider.data hgraphResult))) ∧
  (Report.status r = "match" →
     Report.discrepancies r = None ∧ Report.additional_hgraph_data r = None) ∧
  (Report.status r ≠ "match" →
     Report.status r = "discrepancy_detected" ∧
     is_Some (Report.discrepancies r) ∧
     Report.additional_hgraph_data r =
       transformHGraphToDragonGlass (hgraph_field (Provider.data hgraphResult))) ∧
  Report.data r = default [] (Explorer.data (Provider.data dragonGlassResult)).
Proof.
  unfold compareHandler. case_match; [done|].
  destruct (transformHGraphToDragonGlass _) as [env|] eqn:Henv; [|done].
  intros Hr%Ok_inj. subst r. cbn [Report.status Report.discrepancies Report.additional_hgraph_data
    Report.data].
  rewrite explorer_hashes, hgraph_hashes.
  rewrite <- (list_to_set_sort (DG.transactionHash <$> _)).
  rewrite <- (list_to_set_sort ((λ tx, _) <$> _)).
  unfold compareAndGetStatus. case_decide as Hd; simpl.
  - apply compare_decision in Hd. split_and!; done.
  - rewrite compare_decision in Hd. split_and!; done.
Qed.

Lemma compareHandler_additional_data_witness :
  ∃ r, compareHandler (Some "26027") (Some "kpay.live") (Some "657983")
         (dragonGlassFailure "fetch failed")
         {| Provider.success := true; Provider.error := None;
            Provider.data := Some [sample_tx]; Provider.source := "hgraphio" |} = Ok r ∧
       Report.status r = "discrepancy_detected" ∧
       is_Some (Report.additional_hgraph_data r).
Proof.
  destruct (compareHandler (Some "26027") (Some "kpay.live") (Some "657983")
              (dragonGlassFailure "fetch failed")
              {| Provider.success := true; Provider.error := None;
                 Provider.data := Some [sample_tx]; Provider.source := "hgraphio" |})
    as [e| |r] eqn:E; [vm_compute in E; discriminate E .. |].
  exists r. split; [reflexivity|].
  destruct (compareHandler_additional_data _ _ _ _ _ r E) as (Hmatch & _ & Hdiff & _).
  destruct Hdiff as (Hstatus & _ & Hadd).
  - intros Hm. apply Hmatch in Hm. cbn in Hm.
    assert ("a1b2c3" ∈ (∅ : gset string)) as Hin; [|by apply elem_of_empty in Hin].
    rewrite Hm. apply elem_of_union_l, elem_of_singleton. reflexivity.
  - split; [exact Hstatus|]. rewrite Hadd. vm_compute. eexists. reflexivity.
Defined.

Lemma filter_not_in_nil (l : list string)
    (Hdec : ∀ h : string, Decision (h ∉ (list_to_set [] : gset string))) :
  @filter _ _ list_filter (λ h, h ∉ (list_to_set [] : gset string)) Hdec l = l.
Proof.
  induction l as [|h l IH]; [done|].
  rewrite filter_cons_True; [by rewrite IH|]. apply not_elem_of_empty.
Qed.

(** When the explorer is down, the compare handler still answers: with an
    empty primary payload, the indexer's sorted hashes, and a discrepancy
    that lists all of them as missing in the explorer, unless the indexer
    returned nothing, in which case the verdict is a match. *)
Theorem compareHandler_explorer_down
    (payerID query accountFrom : option string) (message : string)
    (hgraphResult : Provider.Result (option (list HGraph.transaction)))
    (r : Report.t) :
  compareHandler payerID query accountFrom (dragonGlassFailure message) hgraphResult = Ok r →
  Report.dragonglass_success r = false ∧
  Report.size r = 0 ∧ Report.totalCount r = 0 ∧ Report.data r = [] ∧
  Report.canonical_dragonglass r = [] ∧
  Report.canonical_hgraphio r =
    sort ((λ tx, cleanTransactionHash (HGraph.transaction_hash tx)) <$>
            default [] (Provider.data hgraphResult)) ∧
  (default [] (Provider.data hgraphResult) = [] →
     Report.status r = "match" ∧ Report.discrepancies r = None ∧
     Report.additional_hgraph_data r = None) ∧
  (default [] (Provider.data hgraphResult) ≠ [] →
     Report.status r = "discrepancy_detected" ∧
     Report.discrepancies r = Some {|
       missing_in_dragonglass := Report.canonical_hgraphio r;
       missing_in_hgraph := [];
       dragonglass_count := 0;
       hgraph_count := length (default [] (Provider.data hgraphResult)) |}).
Proof.
  unfold compareHandler. case_match; [done|].
  destruct (transformHGraphToDragonGlass _) as [env|] eqn:Henv; [|done].
  intros Hr%Ok_inj. subst r.
  cbn [Report.status Report.discrepancies Report.additional_hgraph_data Report.data
       Report.size Report.totalCount Report.dragonglass_success
       Report.canonical_dragonglass Report.canonical_hgraphio].
  rewrite hgraph_hashes.
  change (createCanonicalHashArray _ "dragonglass") with (@nil string).
  set (hashes := sort _).
  assert (compareAndGetStatus [] hashes =
          if decide (length hashes = 0%nat)
          then {| status := "match"; discrepancies := None |}
          else {| status := "discrepancy_detected";
                  discrepancies := Some {| missing_in_dragonglass := hashes;
                                           missing_in_hgraph := [];
                                           dragonglass_count := 0;
                                           hgraph_count := length hashes |} |}) as ->.
  { unfold compareAndGetStatus. cbv zeta. rewrite filter_not_in_nil.
    change (filter _ []) with (@nil string).
    repeat case_decide; try done; simpl in *; tauto. }
  assert (length hashes = length (default [] (Provider.data hgraphResult))) as Hlen.
  { unfold hashes. by rewrite length_sort, length_fmap. }
  split_and!; try done.
  - intros Hnil. rewrite Hnil in Hlen. by rewrite decide_True.
  - intros Hsome. rewrite decide_False.
    + by rewrite Hlen.
    + rewrite Hlen. by destruct (default [] _).
Qed.

Lemma compareHandler_explorer_down_witness :
  ∃ r, compareHandler (Some "26027") (Some "kpay.live") (Some "657983")
         (dragonGlassFailure "fetch failed") (hgraphFailure "fetch failed") = Ok r ∧
       Report.status r = "match" ∧ Report.hgraphio_success r = false.
Proof.
  destruct (compareHandler (Some "26027") (Some "kpay.live") (Some "657983")
              (dragonGlassFailure "fetch failed") (hgraphFailure "fetch failed"))
    as [e| |r] eqn:E; [vm_compute in E; discriminate E .. |].
  exists r. split; [reflexivity|].
  destruct (compareHandler_explorer_down _ _ _ _ _ r E)
    as (_ & _ & _ & _ & _ & _ & Hnone & _).
  destruct Hnone as (Hstatus & _); [reflexivity|].
  split; [exact Hstatus|]. vm_compute in E. by injection E as <-.
Defined.

(** When the indexer is down, the compare handler still answers, with the
    explorer's payload, an empty indexer hash list, and a discrepancy that
    lists every explorer hash as missing in the indexer (a match when the
    explorer returned nothing); the dg-format handler answers with status
    500 instead. *)
Theorem handlers_indexer_down
    (payerID query accountFrom : option string) (message : string)
    (dragonGlassResult : Provider.Result Explorer.Data) :
  absent payerID || absent query || absent accountFrom = false →
  dgFormatHandler payerID query accountFrom (hgraphFailure message) = ServerError ∧
  ∃ r, compareHandler payerID query accountFrom dragonGlassResult (hgraphFailure message)
         = Ok r ∧
       Report.hgraphio_success r = false ∧
       Report.canonical_hgraphio r = [] ∧
       Report.data r = default [] (Explorer.data (Provider.data dragonGlassResult)) ∧
       (Report.data r = [] →
          Report.status r = "match" ∧ Report.discrepancies r = None) ∧
       (Report.data r ≠ [] →
          Report.status r = "discrepancy_detected" ∧
          Report.discrepancies r = Some {|
            missing_in_dragonglass := [];
            missing_in_hgraph := Report.canonical_dragonglass r;
            dragonglass_count := length (Report.data r);
            hgraph_count := 0 |}).
Proof.
  intros Hparams. unfold dgFormatHandler, compareHandler. rewrite Hparams.
  split; [done|]. cbn [hgraphFailure Provider.data hgraph_field].
  change (transformHGraphToDragonGlass (TxList [])) with
    (Some {| DG.size := 0; DG.totalCount := 0; DG.data := [];
             DG.facets := {| DG.transactionTypes := {[ "CRYPTO_TRANSFER" := 0%nat ]};
                             DG.payerIDs := ∅;
                             DG.serviceTypes := {[ "CRYPTO" := 0%nat ]} |};
             DG.mapping := None |}).
  eexists. split; [reflexivity|].
  cbn [Report.status Report.discrepancies Report.data Report.hgraphio_success
       Report.canonical_dragonglass Report.canonical_hgraphio Provider.success].
  rewrite explorer_hashes.
  change (createCanonicalHashArray _ "hgraphio") with (@nil string).
  set (records := default [] _). set (hashes := sort _).
  assert (length hashes = length records) as Hlen.
  { unfold hashes. by rewrite length_sort, length_fmap. }
  assert (compareAndGetStatus hashes [] =
          if decide (length hashes = 0%nat)
          then {| status := "match"; discrepancies := None |}
          else {| status := "discrepancy_detected";
                  discrepancies := Some {| missing_in_dragonglass := [];
                                           missing_in_hgraph := hashes;
                                           dragonglass_count := length hashes;
                                           hgraph_count := 0 |} |}) as ->.
  { unfold compareAndGetStatus. cbv zeta. rewrite filter_not_in_nil.
    change (filter _ []) with (@nil string).
    repeat case_decide; try done; simpl in *; tauto. }
  split_and!; try done.
  - intros Hnil. rewrite Hnil in Hlen. by rewrite decide_True.
  - intros Hsome. rewrite decide_False.
    + by rewrite Hlen.
    + rewrite Hlen. by destruct records.
Qed.

Lemma handlers_indexer_down_witness :
  dgFormatHandler (Some "26027") (Some "kpay.live") (Some "657983")
    (hgraphFailure "fetch failed") = ServerError.
Proof.
  apply (handlers_indexer_down (Some "26027") (Some "kpay.live") (Some "657983")
           "fetch failed" (dragonGlassFailure "fetch failed")).
  reflexivity.
Defined.

(** ** Dashboard *)

Lemma filter_length_pos {A} (P : A → Prop) (Hdec : ∀ x, Decision (P x)) (l : list A) :
  (0 < length (@filter _ _ list_filter P Hdec l))%nat ↔ ∃ x, x ∈ l ∧ P x.
Proof.
  split.
  - destruct (filter P l) as [|x k] eqn:Hf; simpl; [lia|]. intros _.
    assert (x ∈ filter P l) as Hx by (rewrite Hf; left).
    apply list_elem_of_filter in Hx as [HP Hx]. eauto.
  - intros (x & Hx & HP).
    assert (x ∈ filter P l) as Hin by (by apply list_elem_of_filter).
    destruct (filter P l); [by apply elem_of_nil in Hin | simpl; lia].
Qed.

(** The dashboard raises [bug_detected] exactly when the indexer returned a
    transaction whose cleaned hash is not among the explorer's hashes;
    hashes that only the explorer has never raise it.  The two counts are
    the numbers of records returned. *)
Theorem dashboardStatusHandler_bug_detected
    (dragonGlassResult : Provider.Result Explorer.Data)
    (hgraphResult : Provider.Result (option (list HGraph.transaction))) :
  (Dashboard.bug_detected (dashboardStatusHandler dragonGlassResult hgraphResult) = true ↔
     ∃ tx, tx ∈ default [] (Provider.data hgraphResult) ∧
           cleanTransactionHash (HGraph.transaction_hash tx) ∉
             DG.transactionHash <$>
               default [] (Explorer.data (Provider.data dragonGlassResult))) ∧
  Dashboard.dragonglass_count (dashboardStatusHandler dragonGlassResult hgraphResult) =
    length (default [] (Explorer.data (Provider.data dragonGlassResult))) ∧
  Dashboard.hgraphio_count (dashboardStatusHandler dragonGlassResult hgraphResult) =
    length (default [] (Provider.data hgraphResult)).
Proof.
  split; [|done].
  unfold dashboardStatusHandler. cbn [Dashboard.bug_detected].
  rewrite explorer_hashes, hgraph_hashes.
  set (dg := DG.transactionHash <$> _). set (hg := (λ tx, _) <$> _).
  assert ((∃ tx, tx ∈ default [] (Provider.data hgraphResult) ∧
                 cleanTransactionHash (HGraph.transaction_hash tx) ∉ dg) ↔
          ∃ h, h ∈ sort hg ∧ h ∉ (list_to_set (sort dg) : gset string)) as ->.
  { split.
    - intros (tx & Htx & Hnot). exists (cleanTransactionHash (HGraph.transaction_hash tx)).
      rewrite elem_of_sort, elem_of_list_to_set, elem_of_sort. split; [|done].
      unfold hg. apply list_elem_of_fmap. eauto.
    - intros (h & Hh & Hnot).
      rewrite elem_of_sort in Hh. rewrite elem_of_list_to_set, elem_of_sort in Hnot.
      apply list_elem_of_fmap in Hh as (tx & -> & Htx). eauto. }
  unfold compareAndGetStatus. case_decide as Hd; simpl.
  - split; [done|]. intros (h & Hh & Hnot). destruct Hd as [Hd _].
    apply nil_length_inv in Hd.
    destruct (filter_nil_not_elem_of _ _ _ Hd Hnot Hh).
  - by rewrite Nat.ltb_lt, filter_length_pos.
Qed.

(** * The superseded server against the current one *)

(** The earlier hash extractor is the current one, and the earlier
    comparator reports the same discrepancies; it only names the matching
    status "ok" where the current one says "match". *)
Theorem legacy_comparison_agrees (d : ResponseData) (source : string)
    (dg hg : list string) :
  Legacy.createCanonicalHashArray d source = createCanonicalHashArray d source ∧
  discrepancies (Legacy.compareAndGetStatus dg hg) =
    discrepancies (compareAndGetStatus dg hg) ∧
  (status (Legacy.compareAndGetStatus dg hg) = "ok" ↔
     status (compareAndGetStatus dg hg) = "match") ∧
  (status (Legacy.compareAndGetStatus dg hg) = "discrepancy_detected" ↔
     status (compareAndGetStatus dg hg) = "discrepancy_detected").
Proof.
  split; [reflexivity|].
  unfold Legacy.compareAndGetStatus, compareAndGetStatus.
  case_decide; simpl; split_and!; done.
Qed.

Lemma millisToISOString_convertible x :
  is_Some (Legacy.millisToISOString x) ↔ convertible x = true.
Proof.
  unfold Legacy.millisToISOString, convertible, Date.toISOString.
  destruct (toNumber x) as [n|]; [|split; [by intros [? ?]|done]].
  destruct (Date.valid _); [|split; [by intros [? ?]|done]].
  destruct (Date.civil_from_days _) as [[y m] d]. split; eauto.
Qed.

(** The earlier canonicalizer returns a record exactly when the current
    one does and the transaction has a [crypto_transfer] list; the two
    records then agree on the hash, the payer, the node, the readable id,
    the fee, the transfers, the status and the memo. *)
Theorem legacy_transformTransaction_agrees (tx : HGraph.transaction) :
  (is_Some (Legacy.transformTransaction tx) ↔
     is_Some (transformTransaction tx) ∧ is_Some (HGraph.crypto_transfer tx)) ∧
  (∀ l c, Legacy.transformTransaction tx = Some l → transformTransaction tx = Some c →
     Legacy.transactionHash l = DG.transactionHash c ∧
     Legacy.payerID l = DG.payerID c ∧
     Legacy.nodeID l = DG.nodeID c ∧
     Legacy.readableTransactionID l = DG.readableTransactionID c ∧
     Legacy.transactionFee l = DG.transactionFee c ∧
     Legacy.transfers l = DG.transfers c ∧
     Legacy.status l = DG.status c ∧
     Legacy.memo l = DG.memo c).
Proof.
  split.
  - rewrite transformTransaction_convertible. unfold tx_convertible.
    rewrite andb_true_iff, <- !millisToISOString_convertible.
    unfold Legacy.transformTransaction. split.
    + intros [l Hl]. simplify_option_eq. eauto.
    + intros [[[s1 H1] [s2 H2]] [ts Hts]]. rewrite H1, H2, Hts. simpl.
      assert (is_Some (toNumber (HGraph.valid_start_ns tx))) as [n ->]; [|by eexists].
      unfold Legacy.millisToISOString in H2. destruct (toNumber _); [eauto|done].
  - unfold Legacy.transformTransaction, transformTransaction. intros l c Hl Hc.
    simplify_option_eq. split_and!; try done.
Qed.

Lemma find_stronger {A} (p q : A → bool) (l : list A) (t : A) :
  List.find p l = Some t → q t = true → List.find (λ x, p x && q x) l = Some t.
Proof.
  induction l as [|x l IH]; simpl; [done|].
  destruct (p x) eqn:Hp; simpl.
  - intros [= ->] ->. done.
  - intros Hfind Hq. by apply IH.
Qed.

Lemma find_weaker_none {A} (p q : A → bool) (l : list A) :
  List.find p l = None → List.find (λ x, p x && q x) l = None.
Proof.
  induction l as [|x l IH]; simpl; [done|].
  destruct (p x) eqn:Hp; simpl; [done|]. apply IH.
Qed.

(** The earlier version takes the node fee from the first transfer to the
    node account whatever its sign, as an absolute value; the current one
    takes it from the first such transfer with a positive amount.  Both
    give the same fees when that first transfer is positive or when there
    is none. *)
Theorem legacy_fees (tx : HGraph.transaction) (l : Legacy.transaction) (c : DG.transaction) :
  Legacy.transformTransaction tx = Some l → transformTransaction tx = Some c →
  0 ≤ Legacy.nodeFees l ∧
  match List.find (λ t, bool_decide (DG.Transfer.accountID t = DG.nodeID c))
                  (DG.transfers c) with
  | Some t =>
      Legacy.nodeFees l = Z.abs (DG.Transfer.amount t) ∧
      (0 < DG.Transfer.amount t →
         DG.nodeFees c = Legacy.nodeFees l ∧ DG.networkFees c = Legacy.networkFees l)
  | None =>
      Legacy.nodeFees l = 0 ∧ DG.nodeFees c = 0 ∧
      DG.networkFees c = Legacy.networkFees l
  end.
Proof.
  unfold Legacy.transformTransaction, transformTransaction. intros Hl Hc.
  simplify_option_eq. split; [lia|].
  unfold Legacy.node_amount_of, node_fee_of, is_node_fee.
  destruct (List.find (λ t, bool_decide _) _) as [t|] eqn:Hfind.
  - split.
    + destruct (Z.eqb_spec (DG.Transfer.amount t) 0) as [->|]; done.
    + intros Hpos.
      rewrite (find_stronger _ (λ t, 0 <? DG.Transfer.amount t) _ t Hfind)
        by by apply Z.ltb_lt.
      destruct (Z.eqb_spec (DG.Transfer.amount t) 0); [lia|].
      rewrite Z.abs_eq by lia. done.
  - by rewrite (find_weaker_none _ (λ t, 0 <? DG.Transfer.amount t) _ Hfind).
Qed.

Lemma legacy_fees_witness :
  ∃ l c, Legacy.transformTransaction sample_tx = Some l ∧
         transformTransaction sample_tx = Some c ∧
         DG.nodeFees c = Legacy.nodeFees l.
Proof.
  destruct (Legacy.transformTransaction sample_tx) as [l|] eqn:El;
    [|vm_compute in El; discriminate].
  destruct (transformTransaction sample_tx) as [c|] eqn:Ec;
    [|vm_compute in Ec; discriminate].
  exists l, c. split; [reflexivity|]. split; [reflexivity|].
  destruct (legacy_fees sample_tx l c El Ec) as [_ Hfees].
  assert (List.find (λ t, bool_decide (DG.Transfer.accountID t = DG.nodeID c))
            (DG.transfers c) =
          Some {| DG.Transfer.accountID := "0.0.3"; DG.Transfer.amount := 4000 |}) as Hfind.
  { vm_compute in Ec. injection Ec as <-. reflexivity. }
  rewrite Hfind in Hfees. destruct Hfees as [_ Hpos].
  by destruct Hpos.
Defined.

Lemma legacy_transformTransaction_agrees_witness :
  ∃ l c, Legacy.transformTransaction sample_tx = Some l ∧
         transformTransaction sample_tx = Some c ∧
         Legacy.readableTransactionID l = DG.readableTransactionID c.
Proof.
  destruct (Legacy.transformTransaction sample_tx) as [l|] eqn:El;
    [|vm_compute in El; discriminate].
  destruct (transformTransaction sample_tx) as [c|] eqn:Ec;
    [|vm_compute in Ec; discriminate].
  exists l, c. split; [reflexivity|]. split; [reflexivity|].
  destruct (legacy_transformTransaction_agrees sample_tx) as [_ Hagree].
  by destruct (Hagree l c El Ec) as (_ & _ & _ & Hid & _).
Defined.
